(** * gr: cached "go run" -- a verification development

    A shallow embedding of the fingerprint computation (module and package
    resolution, source walk, embed resolution, checksum aggregation) and of
    the on-disk cache retention of [gr], followed by the properties of the
    design document that were checked against it. *)

From Stdlib Require Import ZArith Lia Ascii String.
From stdpp Require Import gmap strings list fin_maps sorting.

Local Open Scope string_scope.
Local Open Scope list_scope.

(** ** Strings (package [strings] of the Go library) *)

Module Str.

(** The one-byte string that holds a double quote. *)
Definition quote : string := String "034"%char EmptyString.

(** [strings.HasPrefix(s, prefix)] *)
Fixpoint hasPrefix (s prefix : string) {struct prefix} : bool :=
  match prefix, s with
  | EmptyString, _ => true
  | String p prefix', String c s' => if Ascii.eqb c p then hasPrefix s' prefix' else false
  | String _ _, EmptyString => false
  end.

(** [s[len(prefix):]], for [s] known to start with [prefix] *)
Fixpoint dropPrefix (s prefix : string) {struct prefix} : string :=
  match prefix, s with
  | String _ prefix', String _ s' => dropPrefix s' prefix'
  | _, _ => s
  end.

(** [strings.TrimPrefix(s, prefix)] *)
Definition trimPrefix (s prefix : string) : string :=
  if hasPrefix s prefix then dropPrefix s prefix else s.

(** [strings.CutPrefix(s, prefix)] *)
Definition cutPrefix (s prefix : string) : string * bool :=
  if hasPrefix s prefix then (dropPrefix s prefix, true) else (s, false).

(** [strings.HasSuffix(s, suffix)] *)
Definition hasSuffix (s suffix : string) : bool :=
  hasPrefix (String.rev s) (String.rev suffix).

(** [strings.TrimSuffix(s, suffix)] *)
Definition trimSuffix (s suffix : string) : string :=
  if hasSuffix s suffix
  then String.rev (dropPrefix (String.rev s) (String.rev suffix))
  else s.

(** [s[n:]] *)
Fixpoint drop (n : nat) (s : string) : string :=
  match n, s with
  | S n', String _ s' => drop n' s'
  | _, _ => s
  end.

(** The string of the bytes with the given codes. *)
Definition ofCodes (codes : list nat) : string :=
  string_of_list_ascii (map ascii_of_nat codes).

(** The UTF-8 encodings of the runes for which [unicode.IsSpace] holds:
    tab to carriage return, space, U+0085, U+00A0, U+1680, U+2000 to U+200A,
    U+2028, U+2029, U+202F, U+205F and U+3000. *)
Definition spaceRunes : list string :=
  map ofCodes
    [[9]; [10]; [11]; [12]; [13]; [32]; [194; 133]; [194; 160]; [225; 154; 128];
     [226; 128; 128]; [226; 128; 129]; [226; 128; 130]; [226; 128; 131];
     [226; 128; 132]; [226; 128; 133]; [226; 128; 134]; [226; 128; 135];
     [226; 128; 136]; [226; 128; 137]; [226; 128; 138]; [226; 128; 168];
     [226; 128; 169]; [226; 128; 175]; [226; 129; 159]; [227; 128; 128]].

(** What follows the first of [prefixes] that [s] starts with. *)
Fixpoint cutAny (prefixes : list string) (s : string) : option string :=
  match prefixes with
  | [] => None
  | p :: rest => if hasPrefix s p then Some (dropPrefix s p) else cutAny rest s
  end.

(** [unicode.IsSpace] of the first rune of [s] *)
Definition startsWithSpace (s : string) : bool :=
  match cutAny spaceRunes s with Some _ => true | None => false end.

Fixpoint trimLeftAny (fuel : nat) (prefixes : list string) (s : string) : string :=
  match fuel with
  | O => s
  | S fuel' =>
      match cutAny prefixes s with
      | Some rest => trimLeftAny fuel' prefixes rest
      | None => s
      end
  end.

(** [strings.TrimSpace(s)]: white space runes removed at both ends. *)
Definition trimSpace (s : string) : string :=
  let s := trimLeftAny (String.length s) spaceRunes s in
  String.rev (trimLeftAny (String.length s) (map String.rev spaceRunes) (String.rev s)).

(** [s[:i], s[i:]] for the index [i] of the first white space rune of [s],
    or its length. *)
Fixpoint breakAtSpace (s : string) : string * string :=
  match s with
  | EmptyString => (EmptyString, EmptyString)
  | String c s' =>
      if startsWithSpace s then (EmptyString, s)
      else let r := breakAtSpace s' in (String c r.1, r.2)
  end.

(** [s[:i], s[i+1:]] for [i = strings.Index(s, c)], when there is one. *)
Fixpoint cutAt (c : ascii) (s : string) : option (string * string) :=
  match s with
  | EmptyString => None
  | String d s' =>
      if Ascii.eqb d c then Some (EmptyString, s')
      else match cutAt c s' with
           | Some r => Some (String d r.1, r.2)
           | None => None
           end
  end.

End Str.

(** ** Paths (package [path/filepath] of the Go library, Unix flavour)

    gr supports Linux and macOS only, so the separator is ['/'] and the
    volume name is empty. *)

Module Path.

(** [strings.Split(s, "/")]: the segments between separators; never empty. *)
Fixpoint split (s : string) : list string :=
  match s with
  | EmptyString => [""]
  | String c s' =>
      if Ascii.eqb c "/" then "" :: split s'
      else match split s' with
           | seg :: rest => String c seg :: rest
           | [] => [String c ""]
           end
  end.

Definition isRooted (p : string) : bool :=
  match p with
  | String c _ => Ascii.eqb c "/"
  | EmptyString => false
  end.

(** The element stack of [filepath.Clean]: empty and ["."] elements vanish,
    [".."] removes the element before it, or is dropped at the root, or is
    kept at the start of a relative path.  [stack] is kept reversed. *)
Fixpoint cleanSegs (rooted : bool) (stack segs : list string) : list string :=
  match segs with
  | [] => rev stack
  | seg :: segs' =>
      if String.eqb seg "" || String.eqb seg "." then cleanSegs rooted stack segs'
      else if String.eqb seg ".." then
        match stack with
        | top :: stack' =>
            if String.eqb top ".." then cleanSegs rooted (seg :: stack) segs'
            else cleanSegs rooted stack' segs'
        | [] =>
            if rooted then cleanSegs rooted [] segs'
            else cleanSegs rooted [seg] segs'
        end
      else cleanSegs rooted (seg :: stack) segs'
  end.

(** The cleaned path with the given elements: a slash first if rooted, the
    elements the stack is left with, a dot if that is nothing at all. *)
Definition cleanJoin (rooted : bool) (segs : list string) : string :=
  let out := (if rooted then "/" else "") +:+ String.concat "/" (cleanSegs rooted [] segs) in
  if String.eqb out "" then "." else out.

(** [filepath.Clean(p)] *)
Definition clean (p : string) : string :=
  cleanJoin (isRooted p) (split p).

(** [filepath.Join(a, b)]: empty leading elements are ignored, the rest is
    joined with the separator and cleaned. *)
Definition join (a b : string) : string :=
  if String.eqb a "" then (if String.eqb b "" then "" else clean b)
  else clean (a +:+ "/" +:+ b).

(** [filepath.Join(e1, ..., en)] *)
Fixpoint joinAll (elems : list string) : string :=
  match elems with
  | [] => ""
  | e :: rest => if String.eqb e "" then joinAll rest else clean (String.concat "/" elems)
  end.

(** [filepath.Dir(p)]: [Clean] of [p] up to its last separator, that is, of
    the elements of [p] but the last. *)
Definition dir (p : string) : string :=
  match split p with
  | [] | [_] => "."
  | segs => cleanJoin (isRooted p) (removelast segs)
  end.

(** [filepath.Base(p)]: the last element, trailing separators removed. *)
Definition base (p : string) : string :=
  if String.eqb p "" then "."
  else match rev (filter (fun seg => negb (String.eqb seg "")) (split p)) with
       | last :: _ => last
       | [] => "/"
       end.

(** [filepath.Abs(p)] in working directory [cwd] *)
Definition abs (cwd p : string) : string :=
  if isRooted p then clean p else join cwd p.

End Path.

(** ** The file system seen by one fingerprint computation

    A tree of regular files (with their contents), directories and irregular
    nodes (devices, sockets, pipes).  Symbolic links are not modelled, so
    [os.Stat] and [os.Lstat] coincide.  The only failures modelled are the
    ones the program distinguishes: a missing name, a non-directory on the
    way, and reading something that is not a regular file. *)

Module FS.

#[warnings="-register-all"]
Inductive node : Type :=
| File (content : string)
| Dir (entries : list (string * node))
| Irregular.

Inductive errno : Type := ENOENT | ENOTDIR | EISDIR | EIO.

Record world : Type := { root : node; cwd : string }.

(** [os.IsNotExist(err)] on an error of the operating system *)
Definition isNotExist (e : errno) : bool :=
  match e with ENOENT => true | _ => false end.

Fixpoint child (name : string) (entries : list (string * node)) : option node :=
  match entries with
  | [] => None
  | (n, x) :: rest => if String.eqb n name then Some x else child name rest
  end.

Fixpoint walk (n : node) (segs : list string) : errno + node :=
  match segs with
  | [] => inr n
  | seg :: segs' =>
      match n with
      | Dir entries =>
          match child seg entries with
          | Some x => walk x segs'
          | None => inl ENOENT
          end
      | _ => inl ENOTDIR
      end
  end.

Definition segments (w : world) (p : string) : list string :=
  filter (fun seg => negb (String.eqb seg "")) (Path.split (Path.abs (cwd w) p)).

(** [os.Stat(p)], [os.Lstat(p)] *)
Definition stat (w : world) (p : string) : errno + node :=
  if String.eqb p "" then inl ENOENT else walk (root w) (segments w p).

Definition isDir (n : node) : bool :=
  match n with Dir _ => true | _ => false end.

Definition isRegular (n : node) : bool :=
  match n with File _ => true | _ => false end.

Definition nameLe (a b : string * node) : Prop := String.le a.1 b.1.

#[global] Instance nameLe_dec : RelDecision nameLe.
Proof. intros a b. unfold nameLe. apply _. Defined.

(** [os.ReadDir(p)]: the entries of a directory, sorted by file name. *)
Definition readDir (w : world) (p : string) : errno + list (string * node) :=
  match stat w p with
  | inl e => inl e
  | inr (Dir entries) => inr (merge_sort nameLe entries)
  | inr _ => inl ENOTDIR
  end.

(** [os.ReadFile(p)], and [os.Open(p)] followed by reading to the end. *)
Definition readFile (w : world) (p : string) : errno + string :=
  match stat w p with
  | inl e => inl e
  | inr (File content) => inr content
  | inr (Dir _) => inl EISDIR
  | inr Irregular => inl EIO
  end.

End FS.

(** ** The collaborators outside the repository

    What the Go library and [golang.org/x/mod] contribute is taken as given:
    the results of the manifest parser and of the Go parser as the program
    reads them, the hash, glob expansion and the name checks. *)

(** [module.Version] *)
Record modVersion : Type := { Path : string; Version : string }.

(** [modfile.Replace] *)
Record modReplace : Type := { Old : modVersion; New : modVersion }.

(** [modfile.File]: [Module] is [nil] when the manifest has no module
    directive. *)
Record modFile : Type := {
  Module : option string;
  Require : list modVersion;
  Replace : list modReplace
}.

(** [ast.File], as far as [parsePackage] reads it: the [Path.Value] of each
    import (the literal, with its quotes) and the text of each comment,
    grouped. *)
Record goFile : Type := {
  Imports : list string;
  Comments : list (list string)
}.

Record GoLib : Type := {
  (** [hex.EncodeToString] of the SHA-256 digest *)
  sha256_hex : string -> string;
  (** [modfile.Parse(name, contents, nil)] *)
  modfile_Parse : string -> string -> option modFile;
  (** [parser.ParseFile] on the contents of the named file *)
  parser_ParseFile : string -> string -> option goFile;
  (** [filepath.Glob(pattern)]; [None] for a malformed pattern *)
  filepath_Glob : FS.world -> string -> option (list string);
  (** [path.Match(pattern, "")] reports no error *)
  path_Match_wellformed : string -> bool;
  (** [fs.ValidPath] *)
  fs_ValidPath : string -> bool;
  (** [module.CheckFilePath] reports no error *)
  module_CheckFilePath : string -> bool;
  (** [strconv.Unquote] *)
  strconv_Unquote : string -> option string
}.

(** ** Errors, panics and the state of a traversal *)

(** The errors the program returns, one constructor per message; a wrapped
    error ([%w]) is the last argument. *)
Inductive error : Type :=
| OSError (e : FS.errno) (path : string)
| ErrModfile (name : string)
| ErrParseModule (cause : error)
| ErrReadGoMod (dir : string) (cause : error)
| ErrEnclosingGoMod (origDir : string) (cause : error)
| ErrNoGoMod (origDir : string)
| ErrParseGoFile (dir name : string)
| ErrParseGoEmbed (comment : string) (cause : error)
| ErrResolveEmbed (cause : error)
| ErrOutsideEveryModule (importPath : string)
| ErrChecksum (dir : string) (cause : error)
| ErrInvalidQuotedString (args : string)
| ErrInvalidPatternSyntax
| ErrGlob
| ErrDifferentModule (what rel : string)
| ErrInNonDirectory (what rel dir : string)
| ErrInvalidName (what rel elem : string)
| ErrInInvalidDirectory (what rel elem : string)
| ErrIrregularFile (rel : string)
| ErrNoEmbeddableFiles (rel : string)
| ErrNoMatchingFiles.

Inductive panic : Type :=
| ChecksumRequestedTwice (filename : string)
| NilDereference.

(** What a call comes to: a value, an error returned to the caller, a panic,
    or a loop that was still running when the step budget ran out. *)
Inductive outcome (A : Type) : Type :=
| Ok (a : A)
| Err (e : error)
| Panic (p : panic)
| OutOfFuel.

Arguments Ok {A} a.
Arguments Err {A} e.
Arguments Panic {A} p.
Arguments OutOfFuel {A}.

(** [os.IsNotExist(err)]: true of the operating system's own error only, not
    of an error that wraps it. *)
Definition isNotExist (e : error) : bool :=
  match e with
  | OSError e' _ => FS.isNotExist e'
  | _ => false
  end.

Module moduleInfo.

Record t : Type := {
  path : string;
  packages : gmap string string  (* remote imports are marked by empty strings *)
}.

End moduleInfo.

Module parseContext.

Record t : Type := {
  checksums : gmap string string;
  packages : gmap string bool;
  modules : gmap string moduleInfo.t
}.

Definition setChecksums (pc : t) (c : gmap string string) : t :=
  {| checksums := c; packages := packages pc; modules := modules pc |}.

Definition setPackages (pc : t) (p : gmap string bool) : t :=
  {| checksums := checksums pc; packages := p; modules := modules pc |}.

Definition setModules (pc : t) (m : gmap string moduleInfo.t) : t :=
  {| checksums := checksums pc; packages := packages pc; modules := m |}.

End parseContext.

(** A computation on the [*parseContext] passed to every function. *)
Definition M (A : Type) : Type := parseContext.t -> outcome (A * parseContext.t).

Definition ret {A : Type} (a : A) : M A := fun pc => Ok (a, pc).

Definition fail {A : Type} (e : error) : M A := fun _ => Err e.

Definition bind {A B : Type} (m : M A) (k : A -> M B) : M B :=
  fun pc =>
    match m pc with
    | Ok (a, pc') => k a pc'
    | Err e => Err e
    | Panic p => Panic p
    | OutOfFuel => OutOfFuel
    end.

(** [if err != nil { return wrap(err) }] *)
Definition wrapErr {A : Type} (wrap : error -> error) (m : M A) : M A :=
  fun pc =>
    match m pc with
    | Err e => Err (wrap e)
    | r => r
    end.

Notation "x <- m ;; k" := (bind m (fun x => k))
  (at level 100, m at next level, right associativity).
Notation "m ;;; k" := (bind m (fun _ => k))
  (at level 100, right associativity).

(** [for _, x := range xs { if err := body(x); err != nil { return err } }] *)
Fixpoint forEach {A : Type} (body : A -> M unit) (xs : list A) : M unit :=
  match xs with
  | [] => ret tt
  | x :: xs' => body x ;;; forEach body xs'
  end.

(** ** embed.go: the arguments of a [//go:embed] comment *)

(** The scan for the closing quote of a double-quoted argument: a backslash
    skips the byte after it.  Takes [args[1:]]; returns what stands before
    the closing quote and what follows it. *)
Fixpoint scanQuoted (s : string) : option (string * string) :=
  match s with
  | EmptyString => None
  | String c s' =>
      if Ascii.eqb c "\" then
        match s' with
        | EmptyString => None
        | String d s'' =>
            match scanQuoted s'' with
            | Some r => Some (String c (String d r.1), r.2)
            | None => None
            end
        end
      else if Ascii.eqb c "034" then Some (EmptyString, s')
      else match scanQuoted s' with
           | Some r => Some (String c r.1, r.2)
           | None => None
           end
  end.

Section ParseGoEmbed.
Context (L : GoLib).

(** The [switch] of [parseGoEmbed]: the next pattern and the rest of [args],
    which is not empty. *)
Definition nextPattern (args : string) : error + string * string :=
  match args with
  | EmptyString => inr (EmptyString, EmptyString)
  | String c rest =>
      if Ascii.eqb c "`" then
        match Str.cutAt "`" rest with
        | None => inl (ErrInvalidQuotedString args)
        | Some r => inr r
        end
      else if Ascii.eqb c "034" then
        match scanQuoted rest with
        | None => inl (ErrInvalidQuotedString args)
        | Some r =>
            let literal := Str.quote +:+ r.1 +:+ Str.quote in
            match strconv_Unquote L literal with
            | None => inl (ErrInvalidQuotedString literal)
            | Some q => inr (q, r.2)
            end
        end
      else inr (Str.breakAtSpace args)
  end.

Fixpoint parseGoEmbedLoop (fuel : nat) (args : string) (patterns : list string)
  : outcome (list string) :=
  match fuel with
  | O => OutOfFuel
  | S fuel' =>
      let args := Str.trimSpace args in
      if String.eqb args EmptyString then Ok patterns
      else
        match nextPattern args with
        | inl e => Err e
        | inr (path, args) =>
            if negb (String.eqb args EmptyString) && negb (Str.startsWithSpace args)
            then Err (ErrInvalidQuotedString args)
            else parseGoEmbedLoop fuel' args (patterns ++ [path])
        end
  end.

(** [parseGoEmbed]: every round but the last removes a byte of [args]. *)
Definition parseGoEmbed (args : string) : outcome (list string) :=
  parseGoEmbedLoop (S (String.length args)) args [].

End ParseGoEmbed.

(** ** embed.go: the files behind the patterns *)

(** [strQuoteGlob] *)
Definition isGlobMeta (c : ascii) : bool :=
  Ascii.eqb c "*" || Ascii.eqb c "?" || Ascii.eqb c "[" || Ascii.eqb c "]".

Fixpoint strQuoteGlob (s : string) : string :=
  match s with
  | EmptyString => EmptyString
  | String c s' =>
      if isGlobMeta c then String "\" (String c (strQuoteGlob s'))
      else String c (strQuoteGlob s')
  end.

(** [strWithFilePathSeparator] *)
Definition strWithFilePathSeparator (s : string) : string :=
  if String.eqb s EmptyString || Str.hasSuffix s "/" then s else s +:+ "/".

(** [strHasFilePathPrefix], with empty volume names *)
Definition strHasFilePathPrefix (s prefix : string) : bool :=
  if (String.length s =? String.length prefix)%nat then String.eqb s prefix
  else if String.eqb prefix EmptyString then true
  else if (String.length prefix <? String.length s)%nat then
    if Str.hasSuffix prefix "/" then Str.hasPrefix s prefix
    else Str.hasPrefix s (prefix +:+ "/")
  else false.

(** [strTrimFilePathPrefix] *)
Definition strTrimFilePathPrefix (s prefix : string) : string :=
  if String.eqb prefix EmptyString then s
  else if negb (strHasFilePathPrefix s prefix) then s
  else
    let trimmed := Str.drop (String.length prefix) s in
    if Str.hasPrefix trimmed "/" then Str.drop 1 trimmed else trimmed.

(** What the function passed to [fsysWalk] returns: [nil] or [SkipDir]. *)
Inductive walkSignal : Type := WalkNil | WalkSkipDir.

(** The variables of [resolveEmbed] that the walk of a matched directory
    updates. *)
Record walkState : Type := {
  have : gmap string nat;
  matched : list string;     (* [list] *)
  count : nat
}.

(** [if have[rel] != pid { have[rel] = pid; list = append(list, rel) }] *)
Definition addMatch (pid : nat) (rel : string) (st : walkState) : walkState :=
  if (default 0 (have st !! rel) =? pid)%nat then st
  else {| have := <[rel := pid]> (have st);
          matched := matched st ++ [rel];
          count := count st |}.

Definition countFile (st : walkState) : walkState :=
  {| have := have st; matched := matched st; count := S (count st) |}.

(** A sorting key for what [os.ReadDir] lists, with anything attached. *)
Definition byName {A : Type} (a b : string * A) : Prop := String.le a.1 b.1.

#[global] Instance byName_dec {A : Type} : RelDecision (@byName A).
Proof. intros a b. unfold byName. apply _. Defined.

(** [fsyswalk]: [walkFn] on the node, then on what it contains, in the order
    of the names; [SkipDir] of a directory skips that directory, [SkipDir] of
    anything else ends the walk of the directory that contains it. *)
Fixpoint fsyswalk {St : Type}
    (walkFn : string -> string -> FS.node -> St -> walkSignal * St)
    (info : FS.node) {struct info} : string -> string -> St -> walkSignal * St :=
  fun path name st =>
    match walkFn path name info st with
    | (WalkSkipDir, st) => (WalkSkipDir, st)
    | (WalkNil, st) =>
        match info with
        | FS.Dir entries =>
            let fis :=
              merge_sort byName
                (map (fun e => (e.1, (FS.isDir e.2, fsyswalk walkFn e.2))) entries) in
            foldl (fun (acc : walkSignal * St)
                       (fi : string * (bool * (string -> string -> St -> walkSignal * St))) =>
                     match acc with
                     | (WalkSkipDir, _) => acc
                     | (WalkNil, st) =>
                         match snd (snd fi) (Path.join path (fst fi)) (fst fi) st with
                         | (WalkSkipDir, st') =>
                             if fst (snd fi) then (WalkNil, st') else (WalkSkipDir, st')
                         | r => r
                         end
                     end)
                  (WalkNil, st) fis
        | _ => (WalkNil, st)
        end
    end.

Section Embed.
Context (L : GoLib) (w : FS.world).

(** [validEmbedPattern] *)
Definition validEmbedPattern (pattern : string) : bool :=
  negb (String.eqb pattern ".") && fs_ValidPath L pattern.

(** [isBadEmbedName] *)
Definition isBadEmbedName (name : string) : bool :=
  if negb (module_CheckFilePath L name) then true
  else if String.eqb name EmptyString then true
  else if existsb (String.eqb name) [".bzr"; ".hg"; ".git"; ".svn"] then true
  else false.

(** [fsysWalk] *)
Definition fsysWalk {St : Type}
    (root : string) (walkFn : string -> string -> FS.node -> St -> walkSignal * St)
    (st : St) : error + St :=
  match FS.stat w root with
  | inl e => inl (OSError e root)
  | inr info => inr (fsyswalk walkFn info root (Path.base root) st).2
  end.

(** The function [resolveEmbed] passes to [fsysWalk] for the match [file]. *)
Definition embedWalkFn (pkgdir file : string) (all : bool) (pid : nat)
    (path name : string) (info : FS.node) (st : walkState) : walkSignal * walkState :=
  let rel := strTrimFilePathPrefix path pkgdir in
  if negb (String.eqb path file)
     && (isBadEmbedName name
         || ((Str.hasPrefix name "." || Str.hasPrefix name "_") && negb all))
  then (if FS.isDir info then WalkSkipDir else WalkNil, st)
  else if FS.isDir info then
    match FS.stat w (Path.join path "go.mod") with
    | inr _ => (WalkSkipDir, st)
    | inl _ => (WalkNil, st)
    end
  else if negb (FS.isRegular info) then (WalkNil, st)
  else (WalkNil, addMatch pid rel (countFile st)).

(** The loop over the directories from a match up to the package directory:
    none may begin another module, be a non-directory or have a bad name. *)
Fixpoint checkDirs (fuel : nat) (pkgdir file what rel dir : string)
    (dirOK : gmap string bool) : outcome (gmap string bool) :=
  match fuel with
  | O => OutOfFuel
  | S fuel' =>
      if negb ((String.length pkgdir + 1 <? String.length dir)%nat
               && negb (default false (dirOK !! dir)))
      then Ok dirOK
      else
        match FS.stat w (Path.join dir "go.mod") with
        | inr _ => Err (ErrDifferentModule what rel)
        | inl _ =>
            if negb (String.eqb dir file)
               && match FS.stat w dir with
                  | inr info => negb (FS.isDir info)
                  | inl _ => false
                  end
            then Err (ErrInNonDirectory what rel (Str.drop (String.length pkgdir + 1) dir))
            else
              let dirOK := <[dir := true]> dirOK in
              let elem := Path.base dir in
              if isBadEmbedName elem then
                if String.eqb dir file then Err (ErrInvalidName what rel elem)
                else Err (ErrInInvalidDirectory what rel elem)
              else checkDirs fuel' pkgdir file what rel (Path.dir dir) dirOK
        end
  end.

(** The body of the loop over the matches of one pattern. *)
Definition embedMatch (pkgdir : string) (all : bool) (pid : nat) (file : string)
    (st : gmap string bool * walkState) : outcome (gmap string bool * walkState) :=
  let rel := strTrimFilePathPrefix file pkgdir in
  match FS.stat w file with
  | inl e => Err (OSError e file)
  | inr info =>
      let what := if FS.isDir info then "directory" else "file" in
      match checkDirs (S (String.length file)) pkgdir file what rel file st.1 with
      | Ok dirOK =>
          if FS.isRegular info then Ok (dirOK, addMatch pid rel st.2)
          else if FS.isDir info then
            let st0 := {| have := have st.2; matched := matched st.2; count := 0 |} in
            match fsysWalk file (embedWalkFn pkgdir file all pid) st0 with
            | inl e => Err e
            | inr st' =>
                if (count st' =? 0)%nat then Err (ErrNoEmbeddableFiles rel)
                else Ok (dirOK, st')
            end
          else Err (ErrIrregularFile rel)
      | Err e => Err e
      | Panic p => Panic p
      | OutOfFuel => OutOfFuel
      end
  end.

Fixpoint embedMatches (pkgdir : string) (all : bool) (pid : nat) (files : list string)
    (st : gmap string bool * walkState) : outcome (gmap string bool * walkState) :=
  match files with
  | [] => Ok st
  | file :: files' =>
      match embedMatch pkgdir all pid file st with
      | Ok st' => embedMatches pkgdir all pid files' st'
      | r => r
      end
  end.

(** The variables of [resolveEmbed] that live across patterns. *)
Record embedState : Type := {
  pmap : gmap string (list string);
  haveAll : gmap string nat;     (* [have] *)
  dirOK : gmap string bool;
  pid : nat
}.

(** The body of the loop over the patterns. *)
Definition embedPattern (pkgdir : string) (st : embedState) (pattern : string)
  : outcome embedState :=
  let pid := S (pid st) in
  let (glob, all) := Str.cutPrefix pattern "all:" in
  if negb (path_Match_wellformed L glob) || negb (validEmbedPattern glob)
  then Err ErrInvalidPatternSyntax
  else
    match filepath_Glob L w (strQuoteGlob (strWithFilePathSeparator pkgdir) +:+ glob) with
    | None => Err ErrGlob
    | Some files =>
        let st0 := {| have := haveAll st; matched := []; count := 0 |} in
        match embedMatches pkgdir all pid files (dirOK st, st0) with
        | Ok (dirOK, st') =>
            if (length (matched st') =? 0)%nat then Err ErrNoMatchingFiles
            else Ok {| pmap := <[pattern := merge_sort String.le (matched st')]> (pmap st);
                       haveAll := have st';
                       dirOK := dirOK;
                       pid := pid |}
        | Err e => Err e
        | Panic p => Panic p
        | OutOfFuel => OutOfFuel
        end
    end.

Fixpoint embedPatterns (pkgdir : string) (st : embedState) (patterns : list string)
  : outcome embedState :=
  match patterns with
  | [] => Ok st
  | pattern :: patterns' =>
      match embedPattern pkgdir st pattern with
      | Ok st' => embedPatterns pkgdir st' patterns'
      | r => r
      end
  end.

(** [resolveEmbed]: the sorted names of all matched files, and the matches
    of each pattern. *)
Definition resolveEmbed (pkgdir : string) (patterns : list string)
  : outcome (list string * gmap string (list string)) :=
  match embedPatterns pkgdir
          {| pmap := ∅; haveAll := ∅; dirOK := ∅; pid := 0 |} patterns with
  | Ok st => Ok (merge_sort String.le (map fst (map_to_list (haveAll st))), pmap st)
  | Err e => Err e
  | Panic p => Panic p
  | OutOfFuel => OutOfFuel
  end.

End Embed.

(** ** checksum.go: modules *)

Section Modules.
Context (L : GoLib) (w : FS.world).

(** [addChecksum] *)
Definition addChecksum (filename : string) : M unit :=
  fun pc =>
    match parseContext.checksums pc !! filename with
    | Some _ => Panic (ChecksumRequestedTwice filename)
    | None =>
        match FS.readFile w filename with
        | inl e => Err (OSError e filename)
        | inr content =>
            Ok (tt, parseContext.setChecksums pc
                      (<[filename := sha256_hex L content]> (parseContext.checksums pc)))
        end
    end.

(** [stripPackageQuotes] *)
Definition stripPackageQuotes (p : string) : string :=
  Str.trimPrefix (Str.trimSuffix p Str.quote) Str.quote.

(** The loop over [f.Require]: [out.packages[r.Mod.Path] = ""] *)
Definition recordRequire (pkgs : gmap string string) (r : modVersion) : gmap string string :=
  <[Path r := EmptyString]> pkgs.

(** The target of a local replacement: an absolute path as it is written, a
    relative one joined to the module directory. *)
Definition replaceTarget (dir : string) (r : modReplace) : string :=
  if Str.hasPrefix (Path (New r)) "/" then Path (New r)
  else Path.join dir (Path (New r)).

(** The body of the loop over [f.Replace] *)
Definition recordReplace (dir : string) (pkgs : gmap string string) (r : modReplace)
  : gmap string string :=
  if negb (String.eqb (Version (New r)) EmptyString) then pkgs
  else <[stripPackageQuotes (Path (Old r)) := replaceTarget dir r]> pkgs.

(** The [packages] of the [moduleInfo] built by [parseModule] *)
Definition modulePackages (dir modPath : string) (f : modFile) : gmap string string :=
  foldl (recordReplace dir)
        (foldl recordRequire {[ modPath := dir ]} (Require f))
        (Replace f).

(** [if err := addChecksum(..); err != nil && !os.IsNotExist(err) { return err }] *)
Definition addChecksumIfExists (filename : string) : M unit :=
  fun pc =>
    match addChecksum filename pc with
    | Err e => if isNotExist e then Ok (tt, pc) else Err e
    | r => r
    end.

(** [parseModule] *)
Definition parseModule (dir : string) : M moduleInfo.t :=
  let goModFileName := Path.join dir "go.mod" in
  match FS.readFile w goModFileName with
  | inl e => fail (ErrParseModule (OSError e goModFileName))
  | inr contents =>
      match modfile_Parse L goModFileName contents with
      | None => fail (ErrParseModule (ErrModfile goModFileName))
      | Some f =>
          match Module f with
          | None => fun _ => Panic NilDereference
          | Some modPath =>
              let out := {| moduleInfo.path := modPath;
                            moduleInfo.packages := modulePackages dir modPath f |} in
              addChecksum (Path.join dir "go.mod") ;;;
              addChecksumIfExists (Path.join dir "go.sum") ;;;
              ret out
          end
      end
  end.

(** The first loop of [findModule]: climb from [dir] until a cached module or
    a directory with a manifest is found.  Returns the module and the
    directories passed on the way. *)
Fixpoint findModuleClimb (fuel : nat) (origDir dir : string) (uncachedDirs : list string)
  : M (moduleInfo.t * list string) :=
  match fuel with
  | O => fun _ => OutOfFuel
  | S fuel' =>
      fun pc =>
        match parseContext.modules pc !! dir with
        | Some info => Ok ((info, uncachedDirs), pc)
        | None =>
            let uncachedDirs := uncachedDirs ++ [dir] in
            match FS.stat w (Path.join dir "go.mod") with
            | inr _ =>
                (info <- wrapErr (ErrEnclosingGoMod origDir) (parseModule dir) ;;
                 ret (info, uncachedDirs)) pc
            | inl e =>
                if negb (FS.isNotExist e)
                then Err (ErrReadGoMod dir (OSError e (Path.join dir "go.mod")))
                else
                  let dir := Path.dir dir in
                  if String.eqb dir "/" then Err (ErrNoGoMod origDir)
                  else findModuleClimb fuel' origDir dir uncachedDirs pc
            end
        end
  end.

(** The second loop of [findModule]: [pc.modules[d] = info] *)
Definition cacheModule (info : moduleInfo.t) (uncachedDirs : list string) : M unit :=
  fun pc =>
    Ok (tt, parseContext.setModules pc
              (foldl (fun m d => <[d := info]> m) (parseContext.modules pc) uncachedDirs)).

(** [findModule] *)
Definition findModule (fuel : nat) (dir : string) : M moduleInfo.t :=
  r <- findModuleClimb fuel dir dir [] ;;
  cacheModule r.1 r.2 ;;;
  ret r.1.

End Modules.

(** ** checksum.go: package resolution *)

(** [packageInsideOf] *)
Definition packageInsideOf (path base : string) : bool :=
  String.eqb base path || Str.hasPrefix path (base +:+ "/").

(** [dirForPackageInModule] *)
Definition dirForPackageInModule (modulePath moduleDir importPath : string) : string :=
  if String.eqb modulePath importPath then moduleDir
  else Path.join moduleDir (Str.trimPrefix importPath (modulePath +:+ "/")).

(** The body of the loop over [moduleInfo.packages] in [resolveImport]; the
    accumulator is [(longestMatchedPath, longestMatchedPathDir)]. *)
Definition longerMatch (importPath : string)
    (modulePackagePath modulePackageDir : string) (longest : string * string)
  : string * string :=
  if packageInsideOf importPath modulePackagePath
     && (String.length longest.1 <? String.length modulePackagePath)%nat
  then (modulePackagePath, modulePackageDir)
  else longest.

(** The loop itself.  Go ranges over a map in an unspecified order; here the
    entries come in the order of [map_to_list]. *)
Definition longestMatch (importPath : string) (pkgs : gmap string string) : string * string :=
  map_fold (longerMatch importPath) (EmptyString, EmptyString) pkgs.

(** What one round of the loop of [resolveImport] decides, once the module
    that owns the current directory is known. *)
Inductive resolution : Type :=
| Outside                  (* the error: the package is outside of every module *)
| Remote                   (* return "", false, nil *)
| Local (dir : string)     (* return dir, true, nil *)
| Hop (dir : string).      (* dir = longestMatchedPathDir, and once more *)

Definition resolveIn (info : moduleInfo.t) (importPath : string) : resolution :=
  let longest := longestMatch importPath (moduleInfo.packages info) in
  let longestMatchedPath := longest.1 in
  let longestMatchedPathDir := longest.2 in
  if String.eqb longestMatchedPath EmptyString then Outside
  else if String.eqb longestMatchedPathDir EmptyString then Remote
  else if String.eqb longestMatchedPath (moduleInfo.path info)
       then Local (dirForPackageInModule longestMatchedPath longestMatchedPathDir importPath)
  else Hop longestMatchedPathDir.

Section Resolution.
Context (L : GoLib) (w : FS.world).

(** [resolveImport]: the result is [(retDir, retLocal)]. *)
Fixpoint resolveImport (fuel : nat) (dir importPath : string) : M (string * bool) :=
  match fuel with
  | O => fun _ => OutOfFuel
  | S fuel' =>
      info <- findModule L w fuel dir ;;
      match resolveIn info importPath with
      | Outside => fail (ErrOutsideEveryModule importPath)
      | Remote => ret (EmptyString, false)
      | Local d => ret (d, true)
      | Hop d => resolveImport fuel' d importPath
      end
  end.

End Resolution.

(** ** checksum.go: the source walk *)

(** [srcRE]: the extensions of the files the Go compiler and cgo read. *)
Definition srcExtensions : list string :=
  ["go"; "s"; "S"; "c"; "cc"; "cpp"; "cxx"; "m"; "h"; "hh"; "hpp"; "hxx";
   "f"; "F"; "for"; "f90"].

Definition srcRE (name : string) : bool :=
  existsb (fun ext => Str.hasSuffix name ("." +:+ ext)) srcExtensions.

(** [packageFile] *)
Definition packageFile (name : string) : bool :=
  if Str.hasSuffix name "_test.go" then false
  else if Str.hasPrefix name "_" || Str.hasPrefix name "." then false
  else srcRE name.

Definition isLower (c : ascii) : bool :=
  (97 <=? nat_of_ascii c)%nat && (nat_of_ascii c <=? 122)%nat.

(** The rest of a match of [stdlibPackageRE] after its first letter: more
    lower-case letters, then a slash or a double quote. *)
Fixpoint lowerThenDelim (s : string) : bool :=
  match s with
  | EmptyString => false
  | String c s' =>
      if isLower c then lowerThenDelim s'
      else Ascii.eqb c "/" || Ascii.eqb c "034"
  end.

(** [stdlibPackageRE.MatchString]: a double quote, one or more lower-case
    letters, then a slash or a double quote, at the start of the literal. *)
Definition stdlibPackageRE (literal : string) : bool :=
  match literal with
  | String q (String c s') => Ascii.eqb q "034" && isLower c && lowerThenDelim s'
  | _ => false
  end.

Section SourceWalk.
Context (L : GoLib) (w : FS.world).

(** The loop over [node.Imports]; [parsePackage] is the function itself, for
    the packages found. *)
Definition scanImports (fuel : nat) (parsePackage : string -> M unit)
    (dir : string) (imports : list string) : M unit :=
  forEach
    (fun literal =>
       if stdlibPackageRE literal then ret tt
       else
         r <- resolveImport L w fuel dir (stripPackageQuotes literal) ;;
         (* Checksumming of non-local imports is done by checksumming go.mod/go.sum *)
         if negb r.2 then ret tt
         else parsePackage r.1)
    imports.

(** The loop over the comments of one group *)
Fixpoint scanComments (comments : list string) (embedPatterns : list string)
  : M (list string) :=
  match comments with
  | [] => ret embedPatterns
  | text :: comments' =>
      let (s, found) := Str.cutPrefix text "//go:embed " in
      if found then
        match parseGoEmbed L s with
        | Ok patterns => scanComments comments' (embedPatterns ++ patterns)
        | Err e => fail (ErrParseGoEmbed text e)
        | Panic p => fun _ => Panic p
        | OutOfFuel => fun _ => OutOfFuel
        end
      else scanComments comments' embedPatterns
  end.

(** The loop over [node.Comments] *)
Fixpoint scanCommentGroups (groups : list (list string)) (embedPatterns : list string)
  : M (list string) :=
  match groups with
  | [] => ret embedPatterns
  | group :: groups' =>
      embedPatterns <- scanComments group embedPatterns ;;
      scanCommentGroups groups' embedPatterns
  end.

(** The body of the loop over the directory entries *)
Definition scanEntry (fuel : nat) (parsePackage : string -> M unit)
    (dir : string) (de : string * FS.node) (embedPatterns : list string)
  : M (list string) :=
  if negb (FS.isRegular de.2) then ret embedPatterns
  else if negb (packageFile de.1) then ret embedPatterns
  else
    addChecksum L w (Path.join dir de.1) ;;;
    if Str.hasSuffix de.1 ".go" then
      match FS.readFile w (Path.join dir de.1) with
      | inl _ => fail (ErrParseGoFile dir de.1)
      | inr src =>
          match parser_ParseFile L (Path.join dir de.1) src with
          | None => fail (ErrParseGoFile dir de.1)
          | Some node =>
              scanImports fuel parsePackage dir (Imports node) ;;;
              scanCommentGroups (Comments node) embedPatterns
          end
      end
    else ret embedPatterns.

Fixpoint scanEntries (fuel : nat) (parsePackage : string -> M unit)
    (dir : string) (des : list (string * FS.node)) (embedPatterns : list string)
  : M (list string) :=
  match des with
  | [] => ret embedPatterns
  | de :: des' =>
      embedPatterns <- scanEntry fuel parsePackage dir de embedPatterns ;;
      scanEntries fuel parsePackage dir des' embedPatterns
  end.

(** The end of [parsePackage]: the files behind the embed patterns *)
Definition checksumEmbedded (dir : string) (embedPatterns : list string) : M unit :=
  match resolveEmbed L w dir embedPatterns with
  | Ok (files, _) =>
      forEach (fun f => addChecksum L w (Path.join dir f)) (merge_sort String.le files)
  | Err e => fail (ErrResolveEmbed e)
  | Panic p => fun _ => Panic p
  | OutOfFuel => fun _ => OutOfFuel
  end.

(** [parsePackage] *)
Fixpoint parsePackage (fuel : nat) (dir : string) : M unit :=
  match fuel with
  | O => fun _ => OutOfFuel
  | S fuel' =>
      fun pc =>
        if default false (parseContext.packages pc !! dir) then Ok (tt, pc)
        else
          (findModule L w fuel dir ;;;
           match FS.readDir w dir with
           | inl e => fail (OSError e dir)
           | inr des =>
               embedPatterns <- scanEntries fuel (parsePackage fuel') dir des [] ;;
               checksumEmbedded dir embedPatterns
           end)
            (parseContext.setPackages pc (<[dir := true]> (parseContext.packages pc)))
  end.

(** [packageSourceChecksums] *)
Definition packageSourceChecksums (fuel : nat) (dir : string)
  : outcome (gmap string string) :=
  let absDir := Path.abs (FS.cwd w) dir in
  let pc := {| parseContext.checksums := ∅;
               parseContext.packages := ∅;
               parseContext.modules := ∅ |} in
  match parsePackage fuel absDir pc with
  | Ok (_, pc) => Ok (parseContext.checksums pc)
  | Err e => Err (ErrChecksum dir e)
  | Panic p => Panic p
  | OutOfFuel => OutOfFuel
  end.

End SourceWalk.

(** ** checksum.go: the fingerprint

    [json.Marshal] of the Go library, for the values [checksum] gives it:
    strings, a slice of strings and maps from strings to strings. *)

Module Json.

Definition between (lo hi : nat) (c : ascii) : bool :=
  (lo <=? nat_of_ascii c)%nat && (nat_of_ascii c <=? hi)%nat.

(** The size of the UTF-8 encoding of a rune at the start of [s]; 0 when the
    bytes there encode none ([utf8.DecodeRuneInString] then returns
    [RuneError] and size 1). *)
Definition runeSize (s : string) : nat :=
  match s with
  | EmptyString => 0
  | String b0 rest =>
      if between 0 127 b0 then 1
      else if between 194 223 b0 then
        match rest with
        | String b1 _ => if between 128 191 b1 then 2 else 0
        | _ => 0
        end
      else if between 224 239 b0 then
        match rest with
        | String b1 (String b2 _) =>
            let lo := if between 224 224 b0 then 160 else 128 in
            let hi := if between 237 237 b0 then 159 else 191 in
            if between lo hi b1 && between 128 191 b2 then 3 else 0
        | _ => 0
        end
      else if between 240 244 b0 then
        match rest with
        | String b1 (String b2 (String b3 _)) =>
            let lo := if between 240 240 b0 then 144 else 128 in
            let hi := if between 244 244 b0 then 143 else 191 in
            if between lo hi b1 && between 128 191 b2 && between 128 191 b3 then 4 else 0
        | _ => 0
        end
      else 0
  end.

Definition hexDigit (n : nat) : ascii :=
  ascii_of_nat (if (n <? 10)%nat then 48 + n else 87 + n).

(** The escape of a byte below 128 that is not safe in HTML; [None] for a
    byte written as it is. *)
Definition escapeByte (b : ascii) : option string :=
  let n := nat_of_ascii b in
  if Ascii.eqb b "\" || Ascii.eqb b "034" then Some (String "\" (String b EmptyString))
  else if (n =? 8)%nat then Some "\b"
  else if (n =? 12)%nat then Some "\f"
  else if (n =? 10)%nat then Some "\n"
  else if (n =? 13)%nat then Some "\r"
  else if (n =? 9)%nat then Some "\t"
  else if (n <? 32)%nat || Ascii.eqb b "<" || Ascii.eqb b ">" || Ascii.eqb b "&"
  then Some ("\u00" +:+ String (hexDigit (n / 16)) (String (hexDigit (n mod 16)) EmptyString))
  else None.

(** What stands between the quotes of an encoded string.  [keep] bytes of a
    rune already accepted are copied, [skip] bytes of a rune already escaped
    are passed over. *)
Fixpoint stringBody (keep skip : nat) (s : string) : string :=
  match s with
  | EmptyString => EmptyString
  | String b s' =>
      match keep, skip with
      | S keep', _ => String b (stringBody keep' skip s')
      | O, S skip' => stringBody O skip' s'
      | O, O =>
          if between 0 127 b then
            match escapeByte b with
            | Some esc => esc +:+ stringBody O O s'
            | None => String b (stringBody O O s')
            end
          else
            match runeSize s with
            | O => "\" +:+ "ufffd" +:+ stringBody O O s'
            | S size' =>
                if Str.hasPrefix s (Str.ofCodes [226; 128; 168])
                then "\" +:+ "u2028" +:+ stringBody O 2 s'
                else if Str.hasPrefix s (Str.ofCodes [226; 128; 169])
                then "\" +:+ "u2029" +:+ stringBody O 2 s'
                else String b (stringBody size' O s')
            end
      end
  end.

(** A string *)
Definition string (s : String.string) : String.string :=
  Str.quote +:+ stringBody 0 0 s +:+ Str.quote.

(** A slice of strings; the empty list stands for the [nil] slice, which is
    what [parseCLI] passes when no flag is given. *)
Definition strings (l : list String.string) : String.string :=
  match l with
  | [] => "null"
  | _ => "[" +:+ String.concat "," (map string l) +:+ "]"
  end.

Definition byKey (a b : String.string * String.string) : Prop := String.le a.1 b.1.

#[global] Instance byKey_dec : RelDecision byKey.
Proof. intros a b. unfold byKey. apply _. Defined.

(** The entries of a map, however they were enumerated: sorted by key. *)
Definition entries (kvs : list (String.string * String.string)) : String.string :=
  "{" +:+ String.concat ","
            (map (fun kv => string kv.1 +:+ ":" +:+ string kv.2) (merge_sort byKey kvs))
      +:+ "}".

(** A map (not [nil]) from strings to strings *)
Definition map (m : gmap String.string String.string) : String.string :=
  entries (map_to_list m).

End Json.

Section Checksum.
Context (L : GoLib) (w : FS.world).

(** The bytes [checksum] hashes: [json.Marshal([]any{filesChecksums,
    compilerFlags, compilerEnv})] *)
Definition checksumInput (filesChecksums : gmap string string)
    (compilerFlags : list string) (compilerEnv : gmap string string) : string :=
  "[" +:+ Json.map filesChecksums +:+ "," +:+ Json.strings compilerFlags
      +:+ "," +:+ Json.map compilerEnv +:+ "]".

(** [checksum] *)
Definition checksum (fuel : nat) (dir : string)
    (compilerFlags : list string) (compilerEnv : gmap string string) : outcome string :=
  match packageSourceChecksums L w fuel dir with
  | Ok filesChecksums =>
      Ok (sha256_hex L (checksumInput filesChecksums compilerFlags compilerEnv))
  | Err e => Err e
  | Panic p => Panic p
  | OutOfFuel => OutOfFuel
  end.

End Checksum.

(** ** build.go: the cache of executables

    The cache is a tree of directories, one per package, each holding one
    executable per fingerprint; all that matters of a file is its name and
    its modification time.  One process works on it at a time (the caller
    holds the lock on the package directory), so no operation fails. *)

Module Cache.

(** A package's cache directory: modification time by file name. *)
Abbreviation directory := (gmap string Z).

(** The directories below the user's cache directory, by path; a path
    without entry is a directory that does not exist yet. *)
Abbreviation store := (gmap string (gmap string Z)).

(** [packageCacheDir] *)
Definition packageCacheDir (userCacheDir absPackagePath : string) : string :=
  Path.joinAll [userCacheDir; "gr"; "exe"; absPackagePath].

(** [packageCacheFile] *)
Definition packageCacheFile (userCacheDir absPackagePath checksum : string) : string :=
  Path.join (packageCacheDir userCacheDir absPackagePath) checksum.

Definition keepCacheEntriesOnCleanup : nat := 2.

Record cacheEntry : Type := { fileName : string; mtime : Z }.

Definition byFileName (a b : string * Z) : Prop := String.le a.1 b.1.

#[global] Instance byFileName_dec : RelDecision byFileName.
Proof. intros a b. unfold byFileName. apply _. Defined.

(** [os.ReadDir] of the directory, then [de.Info()] of each entry *)
Definition cacheContents (d : directory) : list cacheEntry :=
  map (fun de => {| fileName := de.1; mtime := de.2 |})
      (merge_sort byFileName (map_to_list d)).

(** The order [sort.Slice] leaves the entries in: none is modified before
    one that precedes it. *)
Definition notAfter (a b : cacheEntry) : Prop := (mtime a <= mtime b)%Z.

#[global] Instance notAfter_dec : RelDecision notAfter.
Proof. intros a b. unfold notAfter. apply _. Defined.

(** [os.Remove] of each of the given entries *)
Definition removeAll (d : directory) (entries : list cacheEntry) : directory :=
  foldl (fun d e => delete (fileName e) d) d entries.

(** [cacheCleanup] of a directory that exists *)
Definition cacheCleanup (d : directory) : directory :=
  let sorted := merge_sort notAfter (cacheContents d) in
  removeAll d (take (length sorted - keepCacheEntriesOnCleanup) sorted).

(** The compiler, as far as the cache sees it: at time [now] it writes the
    executable at the output path, or fails and writes nothing. *)
Record compilation : Type := { now : Z; succeeds : bool }.

(** [build] with the output path [packageCacheFile .. checksum] *)
Definition build (c : compilation) (checksum : string) (d : directory) : bool * directory :=
  if succeeds c then (true, <[checksum := now c]> d) else (false, d).

(** [updateCache]: open the package directory, creating it if need be, take
    the lock, clean up, build. *)
Definition updateCache (userCacheDir absPackagePath sourceChecksum : string)
    (c : compilation) (s : store) : bool * store :=
  let p := packageCacheDir userCacheDir absPackagePath in
  let d := default ∅ (s !! p) in
  let r := build c sourceChecksum (cacheCleanup d) in
  (r.1, <[p := r.2]> s).

(** Successful updates for one package, one after the other: each is a
    fingerprint and the time at which its executable is written. *)
Fixpoint updates (userCacheDir absPackagePath : string)
    (builds : list (string * Z)) (s : store) : store :=
  match builds with
  | [] => s
  | b :: builds' =>
      updates userCacheDir absPackagePath builds'
        (updateCache userCacheDir absPackagePath b.1
           {| now := b.2; succeeds := true |} s).2
  end.

(** What the package's cache directory holds. *)
Definition entriesOf (userCacheDir absPackagePath : string) (s : store) : directory :=
  default ∅ (s !! packageCacheDir userCacheDir absPackagePath).

(** The entries of the directory in the order [sort.Slice] leaves them in. *)
Definition byAge (d : directory) : list cacheEntry :=
  merge_sort notAfter (cacheContents d).

(** What [cacheCleanup] removes and what it keeps. *)
Definition removed (d : directory) : list cacheEntry :=
  take (length (byAge d) - keepCacheEntriesOnCleanup) (byAge d).

Definition kept (d : directory) : list cacheEntry :=
  drop (length (byAge d) - keepCacheEntriesOnCleanup) (byAge d).

End Cache.

(** ** Source trees for the scenarios

    Small trees with the text of their files, and the collaborators as far
    as these trees need them: the two parsers on exactly these texts, glob
    expansion of a pattern without metacharacters (which is the file of that
    name, if there is one), names that are all valid, and the file contents
    standing for their own digest. *)

Module Scenario.

Definition line (s : string) : string := s +:+ Str.ofCodes [10].

Definition quoted (s : string) : string := Str.quote +:+ s +:+ Str.quote.

Definition hasMeta (pattern : string) : bool :=
  existsb (fun c => isGlobMeta c || Ascii.eqb c "\") (list_ascii_of_string pattern).

Definition literalGlob (w : FS.world) (pattern : string) : option (list string) :=
  if hasMeta pattern then None
  else match FS.stat w pattern with
       | inr _ => Some [pattern]
       | inl _ => Some []
       end.

(** A parser given by the texts it knows. *)
Fixpoint parseBy {A : Type} (known : list (string * A)) (src : string) : option A :=
  match known with
  | [] => None
  | (text, ast) :: rest => if String.eqb text src then Some ast else parseBy rest src
  end.

Definition lib (manifests : list (string * modFile)) (sources : list (string * goFile))
  : GoLib :=
  {| sha256_hex := fun content => content;
     modfile_Parse := fun _ contents => parseBy manifests contents;
     parser_ParseFile := fun _ src => parseBy sources src;
     filepath_Glob := literalGlob;
     path_Match_wellformed := fun _ => true;
     fs_ValidPath := fun _ => true;
     module_CheckFilePath := fun _ => true;
     strconv_Unquote := fun _ => None |}.

Definition local (oldPath newPath : string) : modReplace :=
  {| Old := {| Path := oldPath; Version := EmptyString |};
     New := {| Path := newPath; Version := EmptyString |} |}.

Definition emptyContext : parseContext.t :=
  {| parseContext.checksums := ∅;
     parseContext.packages := ∅;
     parseContext.modules := ∅ |}.

(** *** A package that embeds one of its own source files *)

Module SelfEmbed.

Definition goMod : string := line "module example.com/m".

Definition mainGo : string :=
  line "package main" +:+
  line ("import _ " +:+ quoted "embed") +:+
  line "//go:embed main.go" +:+
  line "var source string" +:+
  line "func main() { print(source) }".

Definition world : FS.world :=
  {| FS.root := FS.Dir [("m", FS.Dir [("go.mod", FS.File goMod);
                                       ("main.go", FS.File mainGo)])];
     FS.cwd := "/m" |}.

Definition golib : GoLib :=
  lib [(goMod, {| Module := Some "example.com/m"; Require := []; Replace := [] |})]
      [(mainGo, {| Imports := [quoted "embed"];
                   Comments := [["//go:embed main.go"]] |})].

End SelfEmbed.

(** *** A module with a replacement that points back at itself *)

Module SelfReplace.

Definition goMod : string :=
  line "module example.com/a" +:+
  line "replace example.com/b => ./".

Definition mainGo : string :=
  line "package main" +:+
  line ("import _ " +:+ quoted "example.com/b") +:+
  line "func main() {}".

Definition world : FS.world :=
  {| FS.root := FS.Dir [("a", FS.Dir [("go.mod", FS.File goMod);
                                       ("main.go", FS.File mainGo)])];
     FS.cwd := "/a" |}.

Definition manifest : modFile :=
  {| Module := Some "example.com/a";
     Require := [];
     Replace := [local "example.com/b" "./"] |}.

Definition golib : GoLib :=
  lib [(goMod, manifest)]
      [(mainGo, {| Imports := [quoted "example.com/b"]; Comments := [] |})].

(** What parsing the manifest leaves behind. *)
Definition info : moduleInfo.t :=
  {| moduleInfo.path := "example.com/a";
     moduleInfo.packages :=
       <["example.com/b" := "/a"]> {["example.com/a" := "/a"]} |}.

(** The context after [parseModule], and after [findModule]. *)
Definition hashed : parseContext.t :=
  {| parseContext.checksums := {["/a/go.mod" := goMod]};
     parseContext.packages := ∅;
     parseContext.modules := ∅ |}.

Definition parsed : parseContext.t :=
  parseContext.setModules hashed {["/a" := info]}.

End SelfReplace.

(** *** A manifest that requires the module it declares *)

Module SelfRequire.

Definition goMod : string :=
  line "module example.com/a" +:+
  line "require example.com/a v1.0.0".

Definition mainGo : string :=
  line "package main" +:+
  line ("import " +:+ quoted "example.com/a/internal/x") +:+
  line "func main() { x.Run() }".

Definition xGo : string :=
  line "package x" +:+
  line "func Run() {}".

Definition world : FS.world :=
  {| FS.root :=
       FS.Dir [("a", FS.Dir [("go.mod", FS.File goMod);
                             ("internal", FS.Dir [("x", FS.Dir [("x.go", FS.File xGo)])]);
                             ("main.go", FS.File mainGo)])];
     FS.cwd := "/a" |}.

Definition manifest : modFile :=
  {| Module := Some "example.com/a";
     Require := [{| Path := "example.com/a"; Version := "v1.0.0" |}];
     Replace := [] |}.

Definition golib : GoLib :=
  lib [(goMod, manifest)]
      [(mainGo, {| Imports := [quoted "example.com/a/internal/x"]; Comments := [] |});
       (xGo, {| Imports := []; Comments := [] |})].

End SelfRequire.

(** *** A module whose declared path is empty, already in the module cache *)

Module EmptyPath.

Definition info : moduleInfo.t :=
  {| moduleInfo.path := EmptyString;
     moduleInfo.packages := {[EmptyString := "/m"]} |}.

Definition cached : parseContext.t :=
  {| parseContext.checksums := ∅;
     parseContext.packages := ∅;
     parseContext.modules := {["/m" := info]} |}.

End EmptyPath.

(** *** A package that embeds a directory with nothing to embed *)

Module EmptyEmbed.

Definition goMod : string := line "module example.com/m".

Definition mainGo : string :=
  line "package main" +:+
  line ("import " +:+ quoted "embed") +:+
  line "//go:embed assets" +:+
  line "var assets embed.FS" +:+
  line "func main() {}".

Definition world : FS.world :=
  {| FS.root :=
       FS.Dir [("m", FS.Dir [("assets", FS.Dir [(".gitkeep", FS.File EmptyString)]);
                             ("go.mod", FS.File goMod);
                             ("main.go", FS.File mainGo)])];
     FS.cwd := "/m" |}.

Definition golib : GoLib :=
  lib [(goMod, {| Module := Some "example.com/m"; Require := []; Replace := [] |})]
      [(mainGo, {| Imports := [quoted "embed"];
                   Comments := [["//go:embed assets"]] |})].

End EmptyEmbed.

End Scenario.

(** ** Vocabulary of the properties *)

(** Every byte is a lower-case letter of the Latin alphabet. *)
Fixpoint allLower (s : string) : bool :=
  match s with
  | EmptyString => true
  | String c s' => isLower c && allLower s'
  end.

(** An import path as the design document describes the ones that are
    skipped: a single segment of lower-case letters. *)
Definition singleSegmentLowercase (importPath : string) : bool :=
  negb (String.eqb importPath EmptyString) && allLower importPath.

(** The builds come one after the other, each later than the one before
    and than every file that was in the directory to begin with. *)
Definition chronological (d : Cache.directory) (builds : list (string * Z)) : Prop :=
  StronglySorted Z.lt builds.*2
  /\ forall k t b, d !! k = Some t -> b ∈ builds -> (t < b.2)%Z.

(** What an embed pattern matches in a package directory: the result of the
    glob expansion [resolveEmbed] asks for. *)
Definition matchesOf (L : GoLib) (w : FS.world) (pkgdir pattern : string)
  : option (list string) :=
  filepath_Glob L w
    (strQuoteGlob (strWithFilePathSeparator pkgdir) +:+ (Str.cutPrefix pattern "all:").1).

(** The number of files the walk of a matched directory counts: the regular
    files below it that are neither hidden (unless the pattern starts with
    [all:]), nor badly named, nor inside a directory that is, nor inside
    another module. *)
Definition embeddableFiles (L : GoLib) (w : FS.world) (pkgdir pattern file : string)
  : nat :=
  match fsysWalk w file
          (embedWalkFn L w pkgdir file (Str.cutPrefix pattern "all:").2 0)
          {| have := ∅; matched := []; count := 0 |} with
  | inr st => count st
  | inl _ => 0
  end.

(** What the loop over the entries of a module leaves in
    [(longestMatchedPath, longestMatchedPathDir)], in whatever order the
    entries come. *)
Definition isLongestMatch (importPath : string) (entries : list (string * string))
    (longest : string * string) : Prop :=
  (longest = (EmptyString, EmptyString)
   /\ forall k d, (k, d) ∈ entries -> packageInsideOf importPath k = true -> k = EmptyString)
  \/ (longest.1 <> EmptyString
      /\ longest ∈ entries
      /\ packageInsideOf importPath longest.1 = true
      /\ forall k d, (k, d) ∈ entries -> packageInsideOf importPath k = true ->
                     String.length k <= String.length longest.1).

(** The entry the loop selects, in terms of the map. *)
Definition selects (pkgs : gmap string string) (importPath k d : string) : Prop :=
  pkgs !! k = Some d /\ k <> EmptyString /\ packageInsideOf importPath k = true
  /\ forall k' d', pkgs !! k' = Some d' -> packageInsideOf importPath k' = true ->
                   String.length k' <= String.length k.

(** The length of the elements of a path, a separator counted after each. *)
Definition weight (segs : list string) : nat :=
  foldr (fun seg n => S (String.length seg) + n) 0 segs.

Definition nonEmpty (seg : string) : bool := negb (String.eqb seg EmptyString).

(** An outcome that is a result or an error: no panic, no loop cut short. *)
Definition settled {A : Type} (r : outcome A) : Prop :=
  (exists a, r = Ok a) \/ (exists e, r = Err e).

Definition failed {A : Type} (r : outcome A) : Prop := exists e, r = Err e.

(** Stacks of sorted runs, as merge sort keeps them, that correspond. *)
Definition stacksTogether {A B : Type} (Q : A -> B -> Prop)
  : list (option (list A)) -> list (option (list B)) -> Prop :=
  Forall2 (option_Forall2 (Forall2 Q)).

(** Two functions given to the walk go together when, from related states,
    they return the same signal and related states. *)
Definition together {St1 St2 : Type} (R : St1 -> St2 -> Prop)
    (f1 : string -> string -> St1 -> walkSignal * St1)
    (f2 : string -> string -> St2 -> walkSignal * St2) : Prop :=
  forall path name st1 st2,
    R st1 st2 ->
    (f1 path name st1).1 = (f2 path name st2).1
    /\ R (f1 path name st1).2 (f2 path name st2).2.

Definition entriesTogether {St1 St2 : Type} (R : St1 -> St2 -> Prop)
    (fi1 : string * (bool * (string -> string -> St1 -> walkSignal * St1)))
    (fi2 : string * (bool * (string -> string -> St2 -> walkSignal * St2))) : Prop :=
  fi1.1 = fi2.1 /\ fi1.2.1 = fi2.2.1 /\ together R fi1.2.2 fi2.2.2.

(** * Properties *)

(** ** Strings *)

Lemma append_cons (x : ascii) (a b : string) : String x a +:+ b = String x (a +:+ b).
Proof. reflexivity. Qed.

Lemma append_nil_l (a : string) : EmptyString +:+ a = a.
Proof. reflexivity. Qed.

Lemma append_assoc (a b c : string) : (a +:+ b) +:+ c = a +:+ (b +:+ c).
Proof.
  induction a as [|x a IH]; [reflexivity|].
  now rewrite !append_cons, IH.
Qed.

Lemma append_nil_r (a : string) : a +:+ EmptyString = a.
Proof.
  induction a as [|x a IH]; [reflexivity|].
  now rewrite append_cons, IH.
Qed.

Lemma length_append (a b : string) :
  String.length (a +:+ b) = String.length a + String.length b.
Proof.
  induction a as [|x a IH]; [reflexivity|].
  rewrite append_cons. simpl. now rewrite IH.
Qed.

Lemma append_same_length (a b x y : string) :
  a +:+ x = b +:+ y -> String.length a = String.length b -> a = b.
Proof.
  revert b. induction a as [|c a IH]; intros [|d b] H Hlen; try discriminate.
  - reflexivity.
  - rewrite !append_cons in H. injection H as -> H. simpl in Hlen.
    f_equal. apply IH; [assumption | lia].
Qed.

Lemma hasPrefix_spec (s p : string) :
  Str.hasPrefix s p = true <-> exists rest, s = p +:+ rest.
Proof.
  revert s. induction p as [|c p IH]; intros s; simpl.
  - split; [intros _; now exists s | reflexivity].
  - destruct s as [|d s].
    + split; [discriminate | intros [r Hr]; discriminate].
    + destruct (Ascii.eqb_spec d c) as [->|Hne].
      * rewrite IH. split; intros [r Hr]; exists r.
        -- now rewrite Hr.
        -- rewrite append_cons in Hr. now injection Hr.
      * split; [discriminate | intros [r Hr]].
        rewrite append_cons in Hr. injection Hr; congruence.
Qed.

Lemma hasPrefix_append (p rest : string) : Str.hasPrefix (p +:+ rest) p = true.
Proof. apply hasPrefix_spec. now exists rest. Qed.

Lemma dropPrefix_append (p rest : string) : Str.dropPrefix (p +:+ rest) p = rest.
Proof.
  induction p as [|c p IH]; [now destruct rest|].
  rewrite append_cons. simpl. exact IH.
Qed.

Lemma trimPrefix_append (p rest : string) : Str.trimPrefix (p +:+ rest) p = rest.
Proof. unfold Str.trimPrefix. now rewrite hasPrefix_append, dropPrefix_append. Qed.

(** ** Segment-aligned matching *)

Lemma packageInsideOf_spec (path base : string) :
  packageInsideOf path base = true <->
  (path = base \/ exists rest, path = base +:+ "/" +:+ rest).
Proof.
  unfold packageInsideOf.
  rewrite orb_true_iff, String.eqb_eq, hasPrefix_spec.
  split; (intros [H|[r H]]; [left; congruence | right; exists r]).
  - now rewrite H, append_assoc.
  - now rewrite H, append_assoc.
Qed.

(** Two entries that match the same import path and are equally long are the
    same entry. *)
Lemma packageInsideOf_same_length (path b1 b2 : string) :
  packageInsideOf path b1 = true -> packageInsideOf path b2 = true ->
  String.length b1 = String.length b2 -> b1 = b2.
Proof.
  rewrite !packageInsideOf_spec.
  intros [->|[r1 ->]] [H2|[r2 H2]] Hlen.
  - now symmetry.
  - rewrite H2, length_append in Hlen. simpl in Hlen. lia.
  - rewrite <- H2, length_append in Hlen. simpl in Hlen. lia.
  - eapply append_same_length; eassumption.
Qed.

Lemma length_zero_empty (s : string) : String.length s = 0 -> s = EmptyString.
Proof. now destruct s. Qed.

Lemma longerMatch_fold (importPath : string) (entries : list (string * string)) :
  isLongestMatch importPath entries
    (foldr (uncurry (longerMatch importPath)) (EmptyString, EmptyString) entries).
Proof.
  induction entries as [|[k d] entries IH]; simpl.
  - left. split; [reflexivity|]. intros k d H. now apply elem_of_nil in H.
  - set (acc := foldr _ _ entries) in *.
    unfold longerMatch. simpl.
    destruct (packageInsideOf importPath k) eqn:Hin; simpl.
    + destruct (Nat.ltb_spec (String.length acc.1) (String.length k)) as [Hlt|Hge].
      * right. simpl. repeat split.
        -- intros ->. simpl in Hlt. lia.
        -- apply elem_of_cons. now left.
        -- exact Hin.
        -- intros k' d' Hk' Hin'. apply elem_of_cons in Hk' as [Heq|Hk'].
           ++ injection Heq as -> ->. lia.
           ++ destruct IH as [[Hacc Hno]|(_ & _ & _ & Hmax)].
              ** rewrite (Hno _ _ Hk' Hin'). simpl. lia.
              ** specialize (Hmax _ _ Hk' Hin'). lia.
      * destruct IH as [[Hacc Hno]|(Hne & Hel & Hin0 & Hmax)].
        -- left. split; [exact Hacc|].
           intros k' d' Hk' Hin'. apply elem_of_cons in Hk' as [Heq|Hk'].
           ++ injection Heq as -> ->. rewrite Hacc in Hge. simpl in Hge.
              apply length_zero_empty. lia.
           ++ eauto.
        -- right. repeat split; try assumption.
           ++ apply elem_of_cons. now right.
           ++ intros k' d' Hk' Hin'. apply elem_of_cons in Hk' as [Heq|Hk'].
              ** injection Heq as -> ->. exact Hge.
              ** eauto.
    + destruct IH as [[Hacc Hno]|(Hne & Hel & Hin0 & Hmax)].
      * left. split; [exact Hacc|].
        intros k' d' Hk' Hin'. apply elem_of_cons in Hk' as [Heq|Hk'].
        -- injection Heq as -> ->. congruence.
        -- eauto.
      * right. repeat split; try assumption.
        -- apply elem_of_cons. now right.
        -- intros k' d' Hk' Hin'. apply elem_of_cons in Hk' as [Heq|Hk'].
           ++ injection Heq as -> ->. congruence.
           ++ eauto.
Qed.

Lemma NoDup_fst_agree {A B : Type} (l : list (A * B)) (x : A) (y1 y2 : B) :
  NoDup l.*1 -> (x, y1) ∈ l -> (x, y2) ∈ l -> y1 = y2.
Proof.
  induction l as [|[a b] l IH]; intros Hnd H1 H2.
  - now apply elem_of_nil in H1.
  - rewrite fmap_cons in Hnd. apply NoDup_cons in Hnd as [Hnot Hnd]. simpl in Hnot.
    apply elem_of_cons in H1 as [E1|H1]; apply elem_of_cons in H2 as [E2|H2].
    + congruence.
    + injection E1 as -> ->. exfalso. apply Hnot.
      apply list_elem_of_fmap. now exists (a, y2).
    + injection E2 as -> ->. exfalso. apply Hnot.
      apply list_elem_of_fmap. now exists (a, y1).
    + now apply IH.
Qed.

(** There is one such result only, when no path is listed twice. *)
Lemma isLongestMatch_unique (importPath : string) (entries : list (string * string))
    (a b : string * string) :
  NoDup entries.*1 ->
  isLongestMatch importPath entries a -> isLongestMatch importPath entries b -> a = b.
Proof.
  intros Hnd [[-> Ha]|(Hane & Hael & Hain & Hamax)] [[-> Hb]|(Hbne & Hbel & Hbin & Hbmax)].
  - reflexivity.
  - destruct b as [k d]. simpl in *. now rewrite (Ha _ _ Hbel Hbin) in Hbne.
  - destruct a as [k d]. simpl in *. now rewrite (Hb _ _ Hael Hain) in Hane.
  - destruct a as [k1 d1], b as [k2 d2]. simpl in *.
    assert (k1 = k2) as ->.
    { apply (packageInsideOf_same_length importPath); try assumption.
      specialize (Hamax _ _ Hbel Hbin). specialize (Hbmax _ _ Hael Hain). lia. }
    f_equal. now apply (NoDup_fst_agree entries k2).
Qed.

Lemma longestMatch_spec (importPath : string) (pkgs : gmap string string) :
  isLongestMatch importPath (map_to_list pkgs) (longestMatch importPath pkgs).
Proof. unfold longestMatch. rewrite map_fold_foldr. apply longerMatch_fold. Qed.

(** The order in which Go ranges over the entries does not matter. *)
Lemma longestMatch_any_order (importPath : string) (pkgs : gmap string string)
    (entries : list (string * string)) :
  entries ≡ₚ map_to_list pkgs ->
  foldr (uncurry (longerMatch importPath)) (EmptyString, EmptyString) entries
  = longestMatch importPath pkgs.
Proof.
  intros Hperm.
  apply (isLongestMatch_unique importPath (map_to_list pkgs)).
  - apply NoDup_fst_map_to_list.
  - pose proof (longerMatch_fold importPath entries) as H.
    destruct H as [[Heq Hno]|(Hne & Hel & Hin & Hmax)]; [left|right].
    + split; [exact Heq|]. intros k d Hk. apply (Hno k d). now rewrite Hperm.
    + repeat split; try assumption.
      * now rewrite <- Hperm.
      * intros k d Hk. apply (Hmax k d). now rewrite Hperm.
  - apply longestMatch_spec.
Qed.

(** C10: matching a package entry against an import path is aligned on
    path segments: [packageInsideOf path base] holds exactly when [path] is
    [base] or starts with [base] followed by a slash.  So the import path
    [example.com/foobar] does not match the entry [example.com/foo], and the
    loop of [resolveImport] never selects that entry for it. *)
Theorem packageInsideOf_segment_aligned :
  (forall path base : string,
      packageInsideOf path base = true <->
      (path = base \/ exists rest, path = base +:+ "/" +:+ rest))
  /\ packageInsideOf "example.com/foobar" "example.com/foo" = false
  /\ (forall pkgs : gmap string string,
         (longestMatch "example.com/foobar" pkgs).1 <> "example.com/foo").
Proof.
  split; [exact packageInsideOf_spec|]. split; [reflexivity|].
  intros pkgs Heq.
  destruct (longestMatch_spec "example.com/foobar" pkgs)
    as [[H _]|(_ & _ & Hin & _)].
  - rewrite H in Heq. discriminate.
  - rewrite Heq in Hin. discriminate.
Qed.

(** ** One round of import resolution *)

Lemma resolveImport_unfold (L : GoLib) (w : FS.world) (fuel : nat)
    (dir importPath : string) (pc : parseContext.t) :
  resolveImport L w (S fuel) dir importPath pc =
  match findModule L w (S fuel) dir pc with
  | Ok (info, pc') =>
      match resolveIn info importPath with
      | Outside => Err (ErrOutsideEveryModule importPath)
      | Remote => Ok ((EmptyString, false), pc')
      | Local d => Ok ((d, true), pc')
      | Hop d => resolveImport L w fuel d importPath pc'
      end
  | Err e => Err e
  | Panic p => Panic p
  | OutOfFuel => OutOfFuel
  end.
Proof.
  simpl. unfold bind.
  destruct (findModule L w (S fuel) dir pc) as [[info pc']| | |]; try reflexivity.
  destruct (resolveIn info importPath); reflexivity.
Qed.

Lemma longestMatch_cases (importPath : string) (pkgs : gmap string string) :
  (longestMatch importPath pkgs = (EmptyString, EmptyString)
   /\ forall k d, pkgs !! k = Some d -> packageInsideOf importPath k = true -> k = EmptyString)
  \/ (exists k d, longestMatch importPath pkgs = (k, d) /\ selects pkgs importPath k d).
Proof.
  destruct (longestMatch_spec importPath pkgs) as [[Heq Hno]|(Hne & Hel & Hin & Hmax)].
  - left. split; [exact Heq|]. intros k d Hk. apply (Hno k d).
    now apply elem_of_map_to_list.
  - right. destruct (longestMatch importPath pkgs) as [k d]. exists k, d.
    split; [reflexivity|]. repeat split; try assumption.
    + now apply elem_of_map_to_list.
    + intros k' d' Hk'. apply (Hmax k' d'). now apply elem_of_map_to_list.
Qed.

Lemma selects_unique (pkgs : gmap string string) (importPath k1 d1 k2 d2 : string) :
  selects pkgs importPath k1 d1 -> selects pkgs importPath k2 d2 -> k1 = k2 /\ d1 = d2.
Proof.
  intros (H1 & _ & Hin1 & Hmax1) (H2 & _ & Hin2 & Hmax2).
  assert (k1 = k2) as ->.
  { apply (packageInsideOf_same_length importPath); try assumption.
    specialize (Hmax1 _ _ H2 Hin2). specialize (Hmax2 _ _ H1 Hin1). lia. }
  split; congruence.
Qed.

Lemma resolveIn_outside (info : moduleInfo.t) (importPath : string) :
  resolveIn info importPath = Outside <->
  forall k d, moduleInfo.packages info !! k = Some d ->
              packageInsideOf importPath k = true -> k = EmptyString.
Proof.
  unfold resolveIn.
  destruct (longestMatch_cases importPath (moduleInfo.packages info))
    as [[-> Hno]|(k & d & -> & Hsel)]; simpl.
  - split; [intros _; exact Hno | reflexivity].
  - destruct Hsel as (Hk & Hne & Hin & _).
    apply String.eqb_neq in Hne as Hne'. rewrite Hne'.
    split.
    + destruct (String.eqb d EmptyString); [discriminate|].
      destruct (String.eqb k (moduleInfo.path info)); discriminate.
    + intros Hno. now specialize (Hno _ _ Hk Hin).
Qed.

Lemma resolveIn_selected (info : moduleInfo.t) (importPath k d : string) :
  selects (moduleInfo.packages info) importPath k d ->
  resolveIn info importPath =
    if String.eqb d EmptyString then Remote
    else if String.eqb k (moduleInfo.path info)
         then Local (dirForPackageInModule k d importPath)
    else Hop d.
Proof.
  intros Hsel. unfold resolveIn.
  destruct (longestMatch_cases importPath (moduleInfo.packages info))
    as [[_ Hno]|(k' & d' & -> & Hsel')]; simpl.
  - destruct Hsel as (Hk & Hne & Hin & _). now specialize (Hno _ _ Hk Hin).
  - destruct (selects_unique _ _ _ _ _ _ Hsel Hsel') as [<- <-].
    destruct Hsel as (_ & Hne & _). apply String.eqb_neq in Hne. now rewrite Hne.
Qed.

Lemma dirForPackageInModule_root (modulePath moduleDir : string) :
  dirForPackageInModule modulePath moduleDir modulePath = moduleDir.
Proof. unfold dirForPackageInModule. now rewrite String.eqb_refl. Qed.

Lemma dirForPackageInModule_below (modulePath moduleDir rest : string) :
  dirForPackageInModule modulePath moduleDir (modulePath +:+ "/" +:+ rest)
  = Path.join moduleDir rest.
Proof.
  unfold dirForPackageInModule.
  destruct (String.eqb_spec modulePath (modulePath +:+ "/" +:+ rest)) as [Heq|_].
  - apply (f_equal String.length) in Heq. rewrite length_append in Heq.
    rewrite length_append in Heq. simpl in Heq. lia.
  - now rewrite <- append_assoc, trimPrefix_append.
Qed.

(** C5, as the program has it: once the module that owns the directory is
    found, a round of [resolveImport] fails with the error of a package
    outside every module exactly when no entry with a non-empty path matches
    the import path (segment-aligned); otherwise it selects the longest
    matching entry, returns "remote" when that entry's directory is the empty
    sentinel, returns the entry's directory joined with the import path less
    the matched path when the matched path is the module's own, and else
    resolves again from the entry's directory. *)
Theorem resolveImport_round (L : GoLib) (w : FS.world) (fuel : nat)
    (dir importPath : string) (pc pc' : parseContext.t) (info : moduleInfo.t) :
  findModule L w (S fuel) dir pc = Ok (info, pc') ->
  (resolveIn info importPath = Outside <->
   forall k d, moduleInfo.packages info !! k = Some d ->
               packageInsideOf importPath k = true -> k = EmptyString)
  /\ (resolveIn info importPath = Outside ->
      resolveImport L w (S fuel) dir importPath pc = Err (ErrOutsideEveryModule importPath))
  /\ (resolveIn info importPath <> Outside ->
      exists k d,
        selects (moduleInfo.packages info) importPath k d
        /\ (d = EmptyString ->
            resolveImport L w (S fuel) dir importPath pc = Ok ((EmptyString, false), pc'))
        /\ (d <> EmptyString -> k = moduleInfo.path info ->
            exists target,
              resolveImport L w (S fuel) dir importPath pc = Ok ((target, true), pc')
              /\ (importPath = k -> target = d)
              /\ (forall rest, importPath = k +:+ "/" +:+ rest -> target = Path.join d rest))
        /\ (d <> EmptyString -> k <> moduleInfo.path info ->
            resolveImport L w (S fuel) dir importPath pc
            = resolveImport L w fuel d importPath pc')).
Proof.
  intros Hfind. split; [apply resolveIn_outside|]. split.
  - intros Hout. now rewrite resolveImport_unfold, Hfind, Hout.
  - intros Hnot.
    destruct (longestMatch_cases importPath (moduleInfo.packages info))
      as [[_ Hno]|(k & d & _ & Hsel)].
    { exfalso. apply Hnot. now apply resolveIn_outside. }
    exists k, d. split; [exact Hsel|].
    rewrite resolveImport_unfold, Hfind, (resolveIn_selected _ _ _ _ Hsel).
    repeat split.
    + intros ->. reflexivity.
    + intros Hd ->. apply String.eqb_neq in Hd. rewrite Hd, String.eqb_refl.
      eexists. split; [reflexivity|]. split.
      * intros ->. apply dirForPackageInModule_root.
      * intros rest ->. apply dirForPackageInModule_below.
    + intros Hd Hk. apply String.eqb_neq in Hd, Hk. now rewrite Hd, Hk.
Qed.

Lemma resolveImport_round_witness :
  findModule Scenario.SelfReplace.golib Scenario.SelfReplace.world 1 "/a"
    Scenario.emptyContext
  = Ok (Scenario.SelfReplace.info, Scenario.SelfReplace.parsed)
  /\ resolveImport Scenario.SelfReplace.golib Scenario.SelfReplace.world 1 "/a"
       "example.org/x" Scenario.emptyContext
     = Err (ErrOutsideEveryModule "example.org/x").
Proof.
  assert (Hfind : findModule Scenario.SelfReplace.golib Scenario.SelfReplace.world 1 "/a"
                    Scenario.emptyContext
                  = Ok (Scenario.SelfReplace.info, Scenario.SelfReplace.parsed))
    by (vm_compute; reflexivity).
  split; [exact Hfind|].
  apply (resolveImport_round _ _ 0 "/a" "example.org/x" _ _ _ Hfind).
  vm_compute. reflexivity.
Defined.

(** C5 as stated fails for an entry with an empty path: it matches every
    import path that starts with a slash, yet is never selected, and the
    round ends with the error. *)
Lemma resolveImport_ignores_empty_path :
  moduleInfo.packages Scenario.EmptyPath.info !! EmptyString = Some "/m"
  /\ packageInsideOf "/x" EmptyString = true
  /\ resolveImport Scenario.SelfRequire.golib Scenario.SelfRequire.world 1 "/m" "/x"
       Scenario.EmptyPath.cached
     = Err (ErrOutsideEveryModule "/x").
Proof. vm_compute. repeat split. Qed.

(** ** Finding the module of a directory *)

Lemma setModules_same (pc : parseContext.t) :
  parseContext.setModules pc (parseContext.modules pc) = pc.
Proof. now destruct pc. Qed.

Lemma findModule_cached (L : GoLib) (w : FS.world) (fuel : nat) (dir : string)
    (pc : parseContext.t) (info : moduleInfo.t) :
  parseContext.modules pc !! dir = Some info ->
  findModule L w (S fuel) dir pc = Ok (info, pc).
Proof.
  intros Hc. unfold findModule, bind. simpl. rewrite Hc.
  unfold cacheModule, ret. simpl. now rewrite setModules_same.
Qed.

(** A replacement that leads back to the directory it was found in is
    followed for ever. *)
Lemma resolveImport_self_hop (L : GoLib) (w : FS.world) (dir importPath : string)
    (pc : parseContext.t) (info : moduleInfo.t) :
  parseContext.modules pc !! dir = Some info ->
  resolveIn info importPath = Hop dir ->
  forall fuel, resolveImport L w fuel dir importPath pc = OutOfFuel.
Proof.
  intros Hc Hhop fuel. induction fuel as [|fuel IH]; [reflexivity|].
  now rewrite resolveImport_unfold, (findModule_cached _ _ _ _ _ _ Hc), Hhop.
Qed.

(** ** A walk that reaches an import *)

Lemma parsePackage_unfold (L : GoLib) (w : FS.world) (fuel : nat) (dir : string)
    (pc : parseContext.t) :
  parsePackage L w (S fuel) dir pc =
  if default false (parseContext.packages pc !! dir) then Ok (tt, pc)
  else
    match findModule L w (S fuel) dir
            (parseContext.setPackages pc (<[dir := true]> (parseContext.packages pc))) with
    | Ok (_, pc1) =>
        match FS.readDir w dir with
        | inl e => Err (OSError e dir)
        | inr des =>
            match scanEntries L w (S fuel) (parsePackage L w fuel) dir des [] pc1 with
            | Ok (embedPatterns, pc2) => checksumEmbedded L w dir embedPatterns pc2
            | Err e => Err e
            | Panic p => Panic p
            | OutOfFuel => OutOfFuel
            end
        end
    | Err e => Err e
    | Panic p => Panic p
    | OutOfFuel => OutOfFuel
    end.
Proof.
  simpl. destruct (default false (parseContext.packages pc !! dir)); [reflexivity|].
  unfold bind.
  destruct (findModule L w (S fuel) dir _) as [[info pc1]| | |]; try reflexivity.
  destruct (FS.readDir w dir); reflexivity.
Qed.

Lemma scanEntries_cons (L : GoLib) (w : FS.world) (fuel : nat)
    (pp : string -> M unit) (dir : string) (de : string * FS.node)
    (des : list (string * FS.node)) (embedPatterns : list string) (pc : parseContext.t) :
  scanEntries L w fuel pp dir (de :: des) embedPatterns pc =
  match scanEntry L w fuel pp dir de embedPatterns pc with
  | Ok (embedPatterns, pc') => scanEntries L w fuel pp dir des embedPatterns pc'
  | Err e => Err e
  | Panic p => Panic p
  | OutOfFuel => OutOfFuel
  end.
Proof.
  simpl. unfold bind.
  destruct (scanEntry L w fuel pp dir de embedPatterns pc) as [[p pc']| | |]; reflexivity.
Qed.

Lemma scanEntry_skipped (L : GoLib) (w : FS.world) (fuel : nat)
    (pp : string -> M unit) (dir : string) (de : string * FS.node)
    (embedPatterns : list string) (pc : parseContext.t) :
  FS.isRegular de.2 && packageFile de.1 = false ->
  scanEntry L w fuel pp dir de embedPatterns pc = Ok (embedPatterns, pc).
Proof.
  intros H. unfold scanEntry.
  destruct (FS.isRegular de.2); [|reflexivity].
  simpl in H. now rewrite H.
Qed.

Lemma scanEntry_go_file (L : GoLib) (w : FS.world) (fuel : nat)
    (pp : string -> M unit) (dir : string) (de : string * FS.node)
    (embedPatterns : list string) (pc pc' : parseContext.t) (src : string)
    (node : goFile) :
  FS.isRegular de.2 && packageFile de.1 && Str.hasSuffix de.1 ".go" = true ->
  addChecksum L w (Path.join dir de.1) pc = Ok (tt, pc') ->
  FS.readFile w (Path.join dir de.1) = inr src ->
  parser_ParseFile L (Path.join dir de.1) src = Some node ->
  scanEntry L w fuel pp dir de embedPatterns pc =
  match scanImports L w fuel pp dir (Imports node) pc' with
  | Ok (_, pc'') => scanCommentGroups L (Comments node) embedPatterns pc''
  | Err e => Err e
  | Panic p => Panic p
  | OutOfFuel => OutOfFuel
  end.
Proof.
  intros H Hsum Hread Hparse. unfold scanEntry.
  apply andb_true_iff in H as [H Hgo]. apply andb_true_iff in H as [Hreg Hpkg].
  rewrite Hreg, Hpkg, Hgo. simpl. unfold bind at 1. rewrite Hsum, Hread, Hparse.
  unfold bind.
  destruct (scanImports L w fuel pp dir (Imports node) pc') as [[[] pc'']| | |];
    reflexivity.
Qed.

Lemma scanImports_out_of_fuel (L : GoLib) (w : FS.world) (fuel : nat)
    (pp : string -> M unit) (dir literal : string) (rest : list string)
    (pc : parseContext.t) :
  stdlibPackageRE literal = false ->
  resolveImport L w fuel dir (stripPackageQuotes literal) pc = OutOfFuel ->
  scanImports L w fuel pp dir (literal :: rest) pc = OutOfFuel.
Proof.
  intros Hre Hres. unfold scanImports. simpl. rewrite Hre. unfold bind.
  now rewrite Hres.
Qed.

Ltac compute_subterm t :=
  let r := eval vm_compute in t in
  replace t with r by (vm_compute; reflexivity).

(** C2 at the module whose replacement of [example.com/b] is its own
    directory: whatever the number of rounds allowed, [resolveImport] is
    still running when they are used up, each round leaving the resolution
    root where it was; and so is the fingerprint computation of the package
    in that directory, which imports [example.com/b]. *)
Theorem resolveImport_self_replace_diverges :
  (forall fuel : nat,
      resolveImport Scenario.SelfReplace.golib Scenario.SelfReplace.world fuel
        "/a" "example.com/b" Scenario.emptyContext
      = OutOfFuel)
  /\ (forall (fuel : nat) (compilerFlags : list string)
             (compilerEnv : gmap string string),
         checksum Scenario.SelfReplace.golib Scenario.SelfReplace.world fuel "."
           compilerFlags compilerEnv
         = OutOfFuel).
Proof.
  split.
  - intros [|fuel]; [reflexivity|].
    rewrite resolveImport_unfold.
    replace (findModule Scenario.SelfReplace.golib Scenario.SelfReplace.world (S fuel)
               "/a" Scenario.emptyContext)
      with (Ok (Scenario.SelfReplace.info, Scenario.SelfReplace.parsed) : outcome _)
      by (vm_compute; reflexivity).
    replace (resolveIn Scenario.SelfReplace.info "example.com/b") with (Hop "/a")
      by (vm_compute; reflexivity).
    apply (resolveImport_self_hop _ _ _ _ _ Scenario.SelfReplace.info);
      vm_compute; reflexivity.
  - intros [|fuel] flags env; [reflexivity|].
    unfold checksum, packageSourceChecksums.
    compute_subterm (Path.abs (FS.cwd Scenario.SelfReplace.world) ".").
    rewrite parsePackage_unfold.
    match goal with |- context [default false ?x] => compute_subterm (default false x) end.
    cbv iota.
    match goal with |- context [findModule ?a ?b ?c ?d ?e] =>
      compute_subterm (findModule a b c d e) end.
    compute_subterm (FS.readDir Scenario.SelfReplace.world "/a").
    rewrite scanEntries_cons, scanEntry_skipped by (vm_compute; reflexivity).
    rewrite scanEntries_cons.
    erewrite scanEntry_go_file; try (vm_compute; reflexivity).
    cbn [Imports].
    rewrite scanImports_out_of_fuel; [reflexivity | vm_compute; reflexivity |].
    match goal with |- context [stripPackageQuotes ?l] =>
      compute_subterm (stripPackageQuotes l) end.
    apply (resolveImport_self_hop _ _ _ _ _ Scenario.SelfReplace.info);
      vm_compute; reflexivity.
Qed.

(** ** Hashing a file twice *)

(** C4 at a package that embeds one of its own source files: the source walk
    hashes [main.go], the embed pattern names it again, and [addChecksum]
    panics, for every step budget that lets the walk start. *)
Theorem parsePackage_hashes_embedded_source_twice :
  forall fuel : nat,
    packageSourceChecksums Scenario.SelfEmbed.golib Scenario.SelfEmbed.world (S fuel) "."
    = Panic (ChecksumRequestedTwice "/m/main.go").
Proof. intros fuel. vm_compute. reflexivity. Qed.

(** ** The packages of a parsed module *)

(** C6 at a manifest that requires the module it declares: the entry of the
    module's own path is overwritten with the sentinel of a remote module,
    the packages of the module itself then resolve as remote, and the
    source file of the package that [main.go] imports from its own module
    is left out of the hashes. *)
Theorem parseModule_self_require_overwrites_root :
  (exists (info : moduleInfo.t) (pc' : parseContext.t),
      parseModule Scenario.SelfRequire.golib Scenario.SelfRequire.world "/a"
        Scenario.emptyContext = Ok (info, pc')
      /\ moduleInfo.path info = "example.com/a"
      /\ moduleInfo.packages info !! moduleInfo.path info = Some EmptyString
      /\ resolveIn info "example.com/a/internal/x" = Remote)
  /\ (forall fuel : nat,
         exists filesChecksums : gmap string string,
           packageSourceChecksums Scenario.SelfRequire.golib Scenario.SelfRequire.world
             (S fuel) "." = Ok filesChecksums
           /\ filesChecksums !! "/a/main.go" = Some Scenario.SelfRequire.mainGo
           /\ filesChecksums !! "/a/internal/x/x.go" = None).
Proof.
  split.
  - vm_compute. eexists _, _. repeat split.
  - intros fuel. vm_compute. eexists. repeat split.
Qed.

(** ** Local replacements *)

Lemma recordReplace_local (dir : string) (pkgs : gmap string string) (r : modReplace) :
  Version (New r) = EmptyString ->
  recordReplace dir pkgs r !! stripPackageQuotes (Path (Old r)) = Some (replaceTarget dir r).
Proof.
  intros Hv. unfold recordReplace. rewrite Hv. simpl. apply lookup_insert_eq.
Qed.

Lemma recordReplace_other (dir : string) (pkgs : gmap string string) (r : modReplace)
    (k : string) :
  (Version (New r) = EmptyString -> stripPackageQuotes (Path (Old r)) <> k) ->
  recordReplace dir pkgs r !! k = pkgs !! k.
Proof.
  intros Hk. unfold recordReplace.
  destruct (String.eqb_spec (Version (New r)) EmptyString) as [Hv|Hv]; simpl.
  - apply lookup_insert_ne. now apply Hk.
  - reflexivity.
Qed.

Lemma recordReplace_later (dir : string) (post : list modReplace) (k v : string) :
  (forall r', r' ∈ post -> Version (New r') = EmptyString ->
              stripPackageQuotes (Path (Old r')) <> k) ->
  forall pkgs : gmap string string,
    pkgs !! k = Some v -> foldl (recordReplace dir) pkgs post !! k = Some v.
Proof.
  induction post as [|r' post IH]; intros Hpost pkgs Hk; simpl; [exact Hk|].
  apply IH.
  - intros r'' Hin. apply Hpost. apply elem_of_cons. now right.
  - rewrite recordReplace_other; [exact Hk|].
    apply Hpost. apply elem_of_cons. now left.
Qed.

Lemma parseModule_packages (L : GoLib) (w : FS.world) (dir contents : string)
    (f : modFile) (pc pc' : parseContext.t) (info : moduleInfo.t) :
  FS.readFile w (Path.join dir "go.mod") = inr contents ->
  modfile_Parse L (Path.join dir "go.mod") contents = Some f ->
  parseModule L w dir pc = Ok (info, pc') ->
  exists modPath,
    Module f = Some modPath
    /\ moduleInfo.path info = modPath
    /\ moduleInfo.packages info = modulePackages dir modPath f.
Proof.
  intros Hread Hparse Hok. unfold parseModule in Hok.
  rewrite Hread, Hparse in Hok.
  destruct (Module f) as [modPath|]; [|discriminate].
  exists modPath. unfold bind, ret in Hok.
  destruct (addChecksum L w (Path.join dir "go.mod") pc) as [[[] pc1]| | |];
    try discriminate.
  destruct (addChecksumIfExists L w (Path.join dir "go.sum") pc1) as [[[] pc2]| | |];
    try discriminate.
  injection Hok as <- _. repeat split.
Qed.

(** C8: a local replacement (one whose new side has no version) is recorded
    under its old path with the directory it names: the path as written when
    it starts with a slash, the path joined to the module directory when it
    does not.  This is what the loop stores for the directive, and what the
    module's packages hold for that path at the end, unless a later local
    replacement of the same path replaces it. *)
Theorem parseModule_records_local_replace (L : GoLib) (w : FS.world)
    (dir contents : string) (f : modFile) (pc pc' : parseContext.t)
    (info : moduleInfo.t) (pre post : list modReplace) (r : modReplace) :
  FS.readFile w (Path.join dir "go.mod") = inr contents ->
  modfile_Parse L (Path.join dir "go.mod") contents = Some f ->
  parseModule L w dir pc = Ok (info, pc') ->
  Replace f = pre ++ r :: post ->
  Version (New r) = EmptyString ->
  (forall pkgs : gmap string string,
      recordReplace dir pkgs r !! stripPackageQuotes (Path (Old r))
      = Some (if Str.hasPrefix (Path (New r)) "/" then Path (New r)
              else Path.join dir (Path (New r))))
  /\ ((forall r', r' ∈ post -> Version (New r') = EmptyString ->
                  stripPackageQuotes (Path (Old r')) <> stripPackageQuotes (Path (Old r))) ->
      moduleInfo.packages info !! stripPackageQuotes (Path (Old r))
      = Some (if Str.hasPrefix (Path (New r)) "/" then Path (New r)
              else Path.join dir (Path (New r)))).
Proof.
  intros Hread Hparse Hok Hsplit Hlocal. split.
  - intros pkgs. now apply recordReplace_local.
  - intros Hpost.
    destruct (parseModule_packages _ _ _ _ _ _ _ _ Hread Hparse Hok)
      as (modPath & _ & _ & ->).
    unfold modulePackages. rewrite Hsplit, foldl_app. simpl.
    apply recordReplace_later; [exact Hpost|].
    now apply recordReplace_local.
Qed.

Lemma parseModule_records_local_replace_witness :
  moduleInfo.packages Scenario.SelfReplace.info !! stripPackageQuotes "example.com/b"
  = Some (Path.join "/a" "./").
Proof.
  refine (proj2 (parseModule_records_local_replace
                   Scenario.SelfReplace.golib Scenario.SelfReplace.world "/a"
                   Scenario.SelfReplace.goMod Scenario.SelfReplace.manifest
                   Scenario.emptyContext Scenario.SelfReplace.hashed
                   Scenario.SelfReplace.info []
                   [] (Scenario.local "example.com/b" "./")
                   _ _ _ _ _) _).
  - vm_compute; reflexivity.
  - vm_compute; reflexivity.
  - vm_compute; reflexivity.
  - reflexivity.
  - reflexivity.
  - intros r' Hin. now apply elem_of_nil in Hin.
Defined.

(** ** Imports that are not resolved *)

Lemma lowerThenDelim_spec (s : string) :
  lowerThenDelim s = true <->
  exists seg c tail,
    s = seg +:+ String c tail /\ allLower seg = true
    /\ (c = "/"%char \/ c = "034"%char).
Proof.
  induction s as [|x s IH]; simpl.
  - split; [discriminate|]. intros (seg & c & tail & H & _). now destruct seg.
  - destruct (isLower x) eqn:Hx.
    + rewrite IH. split.
      * intros (seg & c & tail & -> & Hseg & Hc).
        exists (String x seg), c, tail. simpl. rewrite Hx, Hseg. now repeat split.
      * intros (seg & c & tail & H & Hseg & Hc). destruct seg as [|y seg].
        -- rewrite append_nil_l in H. injection H as -> ->.
           destruct Hc as [->| ->]; discriminate.
        -- rewrite append_cons in H. injection H as -> ->. simpl in Hseg.
           apply andb_true_iff in Hseg as [_ Hseg]. now exists seg, c, tail.
    + split.
      * intros H. exists EmptyString, x, s. repeat split.
        apply orb_true_iff in H as [H|H]; apply Ascii.eqb_eq in H; auto.
      * intros (seg & c & tail & H & Hseg & Hc). destruct seg as [|y seg].
        -- rewrite append_nil_l in H. injection H as -> ->.
           destruct Hc as [->| ->]; reflexivity.
        -- rewrite append_cons in H. injection H as -> ->. simpl in Hseg.
           rewrite Hx in Hseg. discriminate.
Qed.

Lemma stdlibPackageRE_spec (literal : string) :
  stdlibPackageRE literal = true <->
  exists seg c tail,
    literal = Str.quote +:+ seg +:+ String c tail
    /\ seg <> EmptyString /\ allLower seg = true
    /\ (c = "/"%char \/ c = "034"%char).
Proof.
  unfold stdlibPackageRE. split.
  - destruct literal as [|q [|x s]]; try discriminate.
    rewrite !andb_true_iff, Ascii.eqb_eq, lowerThenDelim_spec.
    intros [[-> Hx] (seg & c & tail & -> & Hseg & Hc)].
    exists (String x seg), c, tail. simpl. rewrite Hx, Hseg. now repeat split.
  - intros (seg & c & tail & -> & Hne & Hseg & Hc).
    destruct seg as [|x seg]; [congruence|].
    simpl in Hseg. apply andb_true_iff in Hseg as [Hx Hseg].
    unfold Str.quote. rewrite !append_cons, append_nil_l. rewrite Hx. simpl.
    apply lowerThenDelim_spec. now exists seg, c, tail.
Qed.

(** C3, as the program has it: an import is skipped, without being passed to
    [resolveImport], exactly when its literal is a double quote, one or more
    lower-case letters and then a slash or the closing quote, that is, when
    the first segment of the path consists of lower-case letters, however
    many segments follow; every other import is resolved, and the package
    it resolves to, if local, is parsed. *)
Theorem scanImports_skips_lowercase_first_segment (L : GoLib) (w : FS.world)
    (fuel : nat) (parsePackage : string -> M unit) (dir literal : string)
    (rest : list string) (pc : parseContext.t) :
  (stdlibPackageRE literal = true <->
   exists seg c tail,
     literal = Str.quote +:+ seg +:+ String c tail
     /\ seg <> EmptyString /\ allLower seg = true
     /\ (c = "/"%char \/ c = "034"%char))
  /\ (stdlibPackageRE literal = true ->
      scanImports L w fuel parsePackage dir (literal :: rest) pc
      = scanImports L w fuel parsePackage dir rest pc)
  /\ (stdlibPackageRE literal = false ->
      scanImports L w fuel parsePackage dir (literal :: rest) pc
      = match resolveImport L w fuel dir (stripPackageQuotes literal) pc with
        | Ok ((retDir, retLocal), pc') =>
            if retLocal
            then (parsePackage retDir ;;; scanImports L w fuel parsePackage dir rest) pc'
            else scanImports L w fuel parsePackage dir rest pc'
        | Err e => Err e
        | Panic p => Panic p
        | OutOfFuel => OutOfFuel
        end).
Proof.
  split; [apply stdlibPackageRE_spec|]. split; intros Hre.
  - unfold scanImports. simpl. now rewrite Hre.
  - unfold scanImports. simpl. rewrite Hre. unfold bind.
    destruct (resolveImport L w fuel dir (stripPackageQuotes literal) pc)
      as [[[retDir retLocal] pc']| | |]; try reflexivity.
    simpl. destruct retLocal; reflexivity.
Qed.

(** C3 as stated fails for [net/http]: two segments, and skipped all the
    same; had it been resolved, the walk would have ended with the error of
    a package outside every module. *)
Lemma scanImports_skips_net_http :
  singleSegmentLowercase "net/http" = false
  /\ stdlibPackageRE (Scenario.quoted "net/http") = true
  /\ scanImports Scenario.SelfReplace.golib Scenario.SelfReplace.world 1
       (fun _ => ret tt) "/a" [Scenario.quoted "net/http"] Scenario.emptyContext
     = Ok (tt, Scenario.emptyContext)
  /\ resolveImport Scenario.SelfReplace.golib Scenario.SelfReplace.world 1 "/a"
       "net/http" Scenario.emptyContext
     = Err (ErrOutsideEveryModule "net/http").
Proof. vm_compute. repeat split. Qed.

(** ** The fingerprint *)

#[local] Instance byKey_trans : Transitive Json.byKey.
Proof. intros a b c. unfold Json.byKey. apply transitivity. Qed.

#[local] Instance byKey_total : Total Json.byKey.
Proof. intros a b. unfold Json.byKey. apply total, _. Qed.

(** However the entries of a map are enumerated, they are written in the
    same order. *)
Lemma merge_sort_byKey_perm (l l' : list (string * string)) :
  NoDup l.*1 -> l ≡ₚ l' ->
  merge_sort Json.byKey l = merge_sort Json.byKey l'.
Proof.
  intros Hnd Hperm.
  apply (StronglySorted_unique_strong Json.byKey).
  - intros a b Ha Hb Hab Hba.
    rewrite merge_sort_Permutation in Ha.
    rewrite merge_sort_Permutation, <- Hperm in Hb.
    unfold Json.byKey in Hab, Hba.
    pose proof (anti_symm String.le _ _ Hab Hba) as Hk.
    destruct a as [k v], b as [k' v']. simpl in Hk. subst k'.
    f_equal. now apply (NoDup_fst_agree l k).
  - apply StronglySorted_merge_sort; apply _.
  - apply StronglySorted_merge_sort; apply _.
  - now rewrite !merge_sort_Permutation.
Qed.

Lemma Json_entries_perm (l l' : list (string * string)) :
  NoDup l.*1 -> l ≡ₚ l' -> Json.entries l = Json.entries l'.
Proof.
  intros Hnd Hperm. unfold Json.entries.
  now rewrite (merge_sort_byKey_perm l l' Hnd Hperm).
Qed.

Lemma Json_map_any_order (m : gmap string string) (l : list (string * string)) :
  l ≡ₚ map_to_list m -> Json.entries l = Json.map m.
Proof.
  intros Hperm. unfold Json.map. symmetry. apply Json_entries_perm.
  - apply NoDup_fst_map_to_list.
  - now symmetry.
Qed.

(** C7: the fingerprint is the hash of a serialization that is determined by
    the file hashes, the flags and the environment: whatever the order in
    which the two maps are enumerated or were filled, and whatever the order
    in which the entries of a module are visited during resolution, the
    bytes hashed are the same; the flags are written in the order given, so
    that exchanging two of them changes the bytes hashed, and the digest
    with them unless SHA-256 collides. *)
Theorem checksum_deterministic (L : GoLib) (w : FS.world) :
  (forall fuel dir compilerFlags compilerEnv,
      checksum L w fuel dir compilerFlags compilerEnv
      = match packageSourceChecksums L w fuel dir with
        | Ok filesChecksums =>
            Ok (sha256_hex L (checksumInput filesChecksums compilerFlags compilerEnv))
        | Err e => Err e
        | Panic p => Panic p
        | OutOfFuel => OutOfFuel
        end)
  /\ (forall filesChecksums compilerFlags compilerEnv files env,
         files ≡ₚ map_to_list filesChecksums ->
         env ≡ₚ map_to_list compilerEnv ->
         "[" +:+ Json.entries files +:+ "," +:+ Json.strings compilerFlags
             +:+ "," +:+ Json.entries env +:+ "]"
         = checksumInput filesChecksums compilerFlags compilerEnv)
  /\ (forall inserted inserted' : list (string * string),
         NoDup inserted.*1 -> inserted ≡ₚ inserted' ->
         (list_to_map inserted : gmap string string) = list_to_map inserted')
  /\ (forall importPath pkgs entries,
         entries ≡ₚ map_to_list pkgs ->
         foldr (uncurry (longerMatch importPath)) (EmptyString, EmptyString) entries
         = longestMatch importPath pkgs)
  /\ (forall filesChecksums compilerEnv,
         ["-race"; "-v"] ≡ₚ ["-v"; "-race"]
         /\ checksumInput filesChecksums ["-race"; "-v"] compilerEnv
            <> checksumInput filesChecksums ["-v"; "-race"] compilerEnv).
Proof.
  split; [reflexivity|]. split.
  { intros fc flags env lf le Hf He. unfold checksumInput.
    now rewrite (Json_map_any_order fc lf Hf), (Json_map_any_order env le He). }
  split; [intros l l'; apply list_to_map_proper|].
  split; [intros imp pkgs entries; apply longestMatch_any_order|].
  intros fc env. split; [apply Permutation_swap|].
  unfold checksumInput. intros H.
  apply (inj (String.append "[")) in H.
  apply (inj (String.append (Json.map fc))) in H.
  apply (inj (String.append ",")) in H.
  revert H. generalize ("," +:+ Json.map env +:+ "]"). intros tail H.
  vm_compute in H. discriminate H.
Qed.

(** ** Retention in the cache *)

Section Retention.
Import Cache.

#[local] Instance notAfter_trans : Transitive notAfter.
Proof. intros a b c. unfold notAfter. lia. Qed.

#[local] Instance notAfter_total : Total notAfter.
Proof. intros a b. unfold notAfter. lia. Qed.

Lemma byAge_perm (d : directory) :
  byAge d ≡ₚ (fun de => {| fileName := de.1; mtime := de.2 |}) <$> map_to_list d.
Proof.
  unfold byAge, cacheContents. rewrite merge_sort_Permutation.
  apply fmap_Permutation. apply merge_sort_Permutation.
Qed.

Lemma elem_of_byAge (d : directory) (e : cacheEntry) :
  e ∈ byAge d <-> d !! fileName e = Some (mtime e).
Proof.
  rewrite byAge_perm, list_elem_of_fmap. split.
  - intros ([k t] & -> & Hin). simpl. now apply elem_of_map_to_list.
  - intros H. exists (fileName e, mtime e). split; [now destruct e|].
    now apply elem_of_map_to_list.
Qed.

Lemma byAge_names (d : directory) : NoDup (fileName <$> byAge d).
Proof.
  rewrite byAge_perm, <- list_fmap_compose.
  apply (NoDup_fst_map_to_list d).
Qed.

Lemma byAge_length (d : directory) : length (byAge d) = size d.
Proof. now rewrite byAge_perm, length_fmap, length_map_to_list. Qed.

Lemma byAge_sorted (d : directory) : StronglySorted notAfter (byAge d).
Proof. apply StronglySorted_merge_sort; apply _. Qed.

Lemma lookup_removeAll (l : list cacheEntry) (d : directory) (k : string) :
  removeAll d l !! k = if decide (k ∈ fileName <$> l) then None else d !! k.
Proof.
  unfold removeAll. revert d. induction l as [|e l IH]; intros d.
  - destruct (decide (k ∈ fileName <$> [])) as [Hin|_]; [|reflexivity].
    now apply elem_of_nil in Hin.
  - cbn [foldl]. rewrite IH, fmap_cons.
    destruct (decide (k ∈ fileName <$> l)) as [Hin|Hnin];
      destruct (decide (k ∈ fileName e :: (fileName <$> l))) as [Hin'|Hnin'].
    + reflexivity.
    + exfalso. apply Hnin'. apply elem_of_cons. now right.
    + apply elem_of_cons in Hin' as [->|Hin']; [|contradiction].
      apply lookup_delete_eq.
    + apply lookup_delete_ne. intros <-. apply Hnin'. apply elem_of_cons. now left.
Qed.

Lemma removed_kept (d : directory) : byAge d = removed d ++ kept d.
Proof. unfold removed, kept. now rewrite take_drop. Qed.

Lemma kept_length (d : directory) : length (kept d) = Nat.min (size d) 2.
Proof.
  unfold kept. rewrite length_drop, byAge_length.
  unfold keepCacheEntriesOnCleanup. lia.
Qed.

Lemma removed_older (d : directory) (e e' : cacheEntry) :
  e ∈ removed d -> e' ∈ kept d -> (mtime e <= mtime e')%Z.
Proof.
  intros He He'. pose proof (byAge_sorted d) as Hs.
  rewrite removed_kept in Hs.
  exact (StronglySorted_app_1_elem_of _ _ _ _ _ Hs He He').
Qed.

Lemma removed_kept_names (d : directory) (e e' : cacheEntry) :
  e ∈ removed d -> e' ∈ kept d -> fileName e <> fileName e'.
Proof.
  intros He He'. pose proof (byAge_names d) as Hnd.
  rewrite removed_kept, fmap_app in Hnd.
  apply NoDup_app in Hnd as (_ & Hdisj & _).
  intros Heq. apply (Hdisj (fileName e)).
  - apply list_elem_of_fmap. now exists e.
  - apply list_elem_of_fmap. now exists e'.
Qed.

Lemma kept_names (d : directory) : NoDup (fileName <$> kept d).
Proof.
  pose proof (byAge_names d) as Hnd.
  rewrite removed_kept, fmap_app in Hnd.
  now apply NoDup_app in Hnd as (_ & _ & Hnd).
Qed.

Lemma elem_of_kept (d : directory) (e : cacheEntry) :
  e ∈ kept d -> d !! fileName e = Some (mtime e).
Proof.
  intros He. apply elem_of_byAge. rewrite removed_kept.
  apply elem_of_app. now right.
Qed.

Lemma lookup_cacheCleanup (d : directory) (k : string) (t : Z) :
  cacheCleanup d !! k = Some t <-> {| fileName := k; mtime := t |} ∈ kept d.
Proof.
  unfold cacheCleanup. fold (byAge d). fold (removed d).
  rewrite lookup_removeAll. split.
  - destruct (decide (k ∈ fileName <$> removed d)) as [Hin|Hnin]; [discriminate|].
    intros Hk.
    assert ({| fileName := k; mtime := t |} ∈ byAge d) as He by now apply elem_of_byAge.
    rewrite removed_kept in He. apply elem_of_app in He as [He|He]; [|exact He].
    exfalso. apply Hnin. apply list_elem_of_fmap.
    now exists {| fileName := k; mtime := t |}.
  - intros He. rewrite decide_False.
    + now apply (elem_of_kept d {| fileName := k; mtime := t |}).
    + intros Hin. apply list_elem_of_fmap in Hin as (e & Hk & Hin).
      now apply (removed_kept_names d e {| fileName := k; mtime := t |}).
Qed.

Lemma cacheCleanup_subset (d : directory) (k : string) (t : Z) :
  cacheCleanup d !! k = Some t -> d !! k = Some t.
Proof.
  intros H. apply lookup_cacheCleanup in H.
  now apply (elem_of_kept d {| fileName := k; mtime := t |}).
Qed.

Lemma kept_contains_three (d : directory) (e1 e2 e3 : cacheEntry) :
  e1 ∈ kept d -> e2 ∈ kept d -> e3 ∈ kept d ->
  fileName e1 <> fileName e2 -> fileName e1 <> fileName e3 ->
  fileName e2 <> fileName e3 -> False.
Proof.
  intros H1 H2 H3 H12 H13 H23.
  assert ([e1; e2; e3] ⊆+ kept d) as Hsub.
  { apply NoDup_submseteq.
    - apply (NoDup_fmap_1 fileName). simpl.
      apply NoDup_cons. split.
      + intros Hin. apply elem_of_cons in Hin as [?|Hin]; [congruence|].
        apply list_elem_of_singleton in Hin. congruence.
      + apply NoDup_cons. split; [|apply NoDup_singleton].
        intros Hin. apply list_elem_of_singleton in Hin. congruence.
    - intros x Hx. apply elem_of_cons in Hx as [->|Hx]; [assumption|].
      apply elem_of_cons in Hx as [->|Hx]; [assumption|].
      apply list_elem_of_singleton in Hx as ->. assumption. }
  apply submseteq_length in Hsub. rewrite kept_length in Hsub. simpl in Hsub. lia.
Qed.

(** The newest entry survives the cleanup. *)
Lemma cacheCleanup_keeps_newest (d : directory) (k : string) (t : Z) :
  d !! k = Some t ->
  (forall k' t', d !! k' = Some t' -> k' <> k -> (t' < t)%Z) ->
  cacheCleanup d !! k = Some t.
Proof.
  intros Hk Hnew. apply lookup_cacheCleanup.
  assert ({| fileName := k; mtime := t |} ∈ byAge d) as He by now apply elem_of_byAge.
  rewrite removed_kept in He. apply elem_of_app in He as [He|He]; [|exact He].
  exfalso.
  assert (0 < size d) as Hsize.
  { rewrite <- byAge_length, removed_kept, length_app.
    apply list_elem_of_lookup in He as [i Hi]. apply lookup_lt_Some in Hi. lia. }
  pose proof (kept_length d) as Hlen.
  destruct (kept d) as [|e' l] eqn:Hkept; [simpl in Hlen; lia|].
  assert (e' ∈ kept d) as He' by (rewrite Hkept; apply elem_of_cons; now left).
  pose proof (removed_older d _ _ He He') as Hle.
  pose proof (removed_kept_names d _ _ He He') as Hne.
  pose proof (Hnew _ _ (elem_of_kept d e' He') (not_eq_sym Hne)) as Hlt.
  simpl in *. lia.
Qed.

(** Two entries newer than all the others are what the cleanup leaves. *)
Lemma cacheCleanup_two_newest (d : directory) (k1 k2 : string) (t1 t2 : Z) :
  d !! k1 = Some t1 -> d !! k2 = Some t2 -> k1 <> k2 ->
  (forall k' t', d !! k' = Some t' -> k' <> k1 -> k' <> k2 -> (t' < t1)%Z /\ (t' < t2)%Z) ->
  cacheCleanup d = <[k1 := t1]> {[k2 := t2]}.
Proof.
  intros H1 H2 Hne Hold.
  assert (forall k t k0 t0,
             d !! k = Some t -> d !! k0 = Some t0 -> k <> k0 ->
             (forall k' t', d !! k' = Some t' -> k' <> k -> k' <> k0 -> (t' < t)%Z) ->
             {| fileName := k; mtime := t |} ∈ kept d) as Hkeep.
  { intros k t k0 t0 Hk Hk0 Hkk0 Holder.
    assert ({| fileName := k; mtime := t |} ∈ byAge d) as He by now apply elem_of_byAge.
    rewrite removed_kept in He. apply elem_of_app in He as [He|He]; [|exact He].
    exfalso.
    assert (2 < size d) as Hsize.
    { rewrite <- byAge_length.
      apply list_elem_of_lookup in He as [i Hi]. apply lookup_lt_Some in Hi.
      unfold removed in Hi. rewrite length_take in Hi.
      unfold keepCacheEntriesOnCleanup in Hi. lia. }
    pose proof (kept_length d) as Hlen.
    destruct (kept d) as [|a [|b l]] eqn:Hkept; try (simpl in Hlen; lia).
    assert (a ∈ kept d) as Ha by (rewrite Hkept; apply elem_of_cons; now left).
    assert (b ∈ kept d) as Hb
      by (rewrite Hkept; apply elem_of_cons; right; apply elem_of_cons; now left).
    pose proof (kept_names d) as Hnd. rewrite Hkept in Hnd.
    rewrite !fmap_cons in Hnd. apply NoDup_cons in Hnd as [Hab _].
    pose proof (removed_older d _ _ He Ha) as Hlea.
    pose proof (removed_older d _ _ He Hb) as Hleb.
    pose proof (removed_kept_names d _ _ He Ha) as Hna.
    pose proof (removed_kept_names d _ _ He Hb) as Hnb.
    simpl in *.
    destruct (decide (fileName a = k0)) as [Hak|Hak].
    - destruct (decide (fileName b = k0)) as [Hbk|Hbk].
      + apply Hab. apply elem_of_cons. left. congruence.
      + pose proof (Holder _ _ (elem_of_kept d b Hb) (not_eq_sym Hnb) Hbk). lia.
    - pose proof (Holder _ _ (elem_of_kept d a Ha) (not_eq_sym Hna) Hak). lia. }
  assert ({| fileName := k1; mtime := t1 |} ∈ kept d) as He1.
  { apply (Hkeep k1 t1 k2 t2); try assumption.
    intros k' t' Hk' Hn1 Hn2. now apply (Hold k' t'). }
  assert ({| fileName := k2; mtime := t2 |} ∈ kept d) as He2.
  { apply (Hkeep k2 t2 k1 t1); try assumption; [congruence|].
    intros k' t' Hk' Hn2 Hn1. now apply (Hold k' t'). }
  apply map_eq. intros k.
  destruct (decide (k = k1)) as [->|Hk1].
  { rewrite lookup_insert_eq. now apply lookup_cacheCleanup. }
  rewrite lookup_insert_ne by congruence.
  destruct (decide (k = k2)) as [->|Hk2].
  { rewrite lookup_singleton_eq. now apply lookup_cacheCleanup. }
  rewrite lookup_singleton_ne by congruence.
  destruct (cacheCleanup d !! k) as [t|] eqn:Hk; [|reflexivity].
  exfalso. apply lookup_cacheCleanup in Hk.
  apply (kept_contains_three d _ _ _ He1 He2 Hk); simpl; congruence.
Qed.

End Retention.

Section RetentionBound.
Import Cache.
Context (userCacheDir absPackagePath : string).

Lemma entriesOf_updateCache (sourceChecksum : string) (t : Z) (s : store) :
  entriesOf userCacheDir absPackagePath
    (updateCache userCacheDir absPackagePath sourceChecksum
       {| now := t; succeeds := true |} s).2
  = <[sourceChecksum := t]> (cacheCleanup (entriesOf userCacheDir absPackagePath s)).
Proof.
  unfold entriesOf, updateCache, build. simpl. now rewrite lookup_insert_eq.
Qed.

Lemma updates_app (l1 l2 : list (string * Z)) (s : store) :
  updates userCacheDir absPackagePath (l1 ++ l2) s
  = updates userCacheDir absPackagePath l2 (updates userCacheDir absPackagePath l1 s).
Proof. revert s. induction l1 as [|b l1 IH]; intros s; simpl; [reflexivity|apply IH]. Qed.

Lemma chronological_step (d : directory) (b : string * Z) (builds : list (string * Z)) :
  chronological d (b :: builds) ->
  chronological (<[b.1 := b.2]> (cacheCleanup d)) builds.
Proof.
  intros [Hsorted Hold]. rewrite fmap_cons in Hsorted.
  apply StronglySorted_inv in Hsorted as [Hsorted Hhead]. split; [exact Hsorted|].
  intros k t b' Hk Hb'.
  destruct (decide (k = b.1)) as [->|Hne].
  - rewrite lookup_insert_eq in Hk. injection Hk as <-.
    rewrite Forall_forall in Hhead. apply Hhead.
    apply list_elem_of_fmap. now exists b'.
  - rewrite lookup_insert_ne in Hk by congruence.
    apply cacheCleanup_subset in Hk. apply (Hold k t b' Hk).
    apply elem_of_cons. now right.
Qed.

Lemma chronological_updates (pre rest : list (string * Z)) (s : store) :
  chronological (entriesOf userCacheDir absPackagePath s) (pre ++ rest) ->
  chronological
    (entriesOf userCacheDir absPackagePath (updates userCacheDir absPackagePath pre s))
    rest.
Proof.
  revert s. induction pre as [|[fp t] pre IH]; intros s H; [exact H|].
  cbn [updates app fst snd]. apply IH. rewrite entriesOf_updateCache.
  now apply (chronological_step _ (fp, t)).
Qed.

(** The last three of more than two builds, whatever was there before. *)
Lemma last_three_builds (d : directory) (f1 f2 f3 : string) (t1 t2 t3 : Z) :
  chronological d [(f1, t1); (f2, t2); (f3, t3)] ->
  f1 <> f2 -> f1 <> f3 -> f2 <> f3 ->
  <[f3 := t3]>
    (cacheCleanup (<[f2 := t2]> (cacheCleanup (<[f1 := t1]> (cacheCleanup d)))))
  = <[f3 := t3]> (<[f1 := t1]> {[f2 := t2]}).
Proof.
  intros Hchron H12 H13 H23.
  pose proof (chronological_step _ _ _ Hchron) as Hc1. simpl in Hc1.
  destruct Hc1 as [Hs1 Hold1].
  assert (t1 < t2)%Z as Ht12.
  { apply (Hold1 f1 t1 (f2, t2)); [apply lookup_insert_eq|]. apply elem_of_cons. now left. }
  set (d1 := <[f1 := t1]> (cacheCleanup d)) in *.
  assert (cacheCleanup d1 !! f1 = Some t1) as Hf1.
  { apply cacheCleanup_keeps_newest; [apply lookup_insert_eq|].
    intros k' t' Hk' Hne. unfold d1 in Hk'. rewrite lookup_insert_ne in Hk' by congruence.
    apply cacheCleanup_subset in Hk'.
    destruct Hchron as [_ Hold]. apply (Hold k' t' (f1, t1) Hk').
    apply elem_of_cons. now left. }
  f_equal. apply cacheCleanup_two_newest.
  - rewrite lookup_insert_ne by congruence. exact Hf1.
  - apply lookup_insert_eq.
  - exact H12.
  - intros k' t' Hk' Hn1 Hn2. rewrite lookup_insert_ne in Hk' by congruence.
    apply cacheCleanup_subset in Hk'. unfold d1 in Hk'.
    rewrite lookup_insert_ne in Hk' by congruence.
    apply cacheCleanup_subset in Hk'.
    destruct Hchron as [_ Hold]. split.
    + apply (Hold k' t' (f1, t1) Hk'). apply elem_of_cons. now left.
    + apply (Hold k' t' (f2, t2) Hk'). apply elem_of_cons. right.
      apply elem_of_cons. now left.
Qed.

(** C1, as the program has it: after more than two successful updates for
    one package, with distinct fingerprints, each later than the one before
    and than whatever the directory held, the package's cache directory
    holds exactly three entries: the executable just built and the two built
    before it, which are the two most recently modified of the entries there
    when the last update began.  Cleanup runs before the build and keeps two
    entries; the build adds the third. *)
Theorem updateCache_retention (s : Cache.store) (builds : list (string * Z)) :
  2 < length builds ->
  NoDup builds.*1 ->
  chronological (entriesOf userCacheDir absPackagePath s) builds ->
  exists b1 b2 b3,
    drop (length builds - 3) builds = [b1; b2; b3]
    /\ entriesOf userCacheDir absPackagePath
         (updates userCacheDir absPackagePath builds s)
       = <[b3.1 := b3.2]> (<[b1.1 := b1.2]> {[b2.1 := b2.2]})
    /\ size (entriesOf userCacheDir absPackagePath
               (updates userCacheDir absPackagePath builds s)) = 3.
Proof.
  intros Hlen Hnd Hchron.
  rewrite <- (take_drop (length builds - 3) builds) in Hnd, Hchron |- *.
  set (pre := take (length builds - 3) builds) in *.
  assert (length (drop (length builds - 3) builds) = 3) as Hlast
    by (rewrite length_drop; lia).
  destruct (drop (length builds - 3) builds) as [|[f1 t1] [|[f2 t2] [|[f3 t3] [|? ?]]]];
    try discriminate Hlast.
  clear Hlast. exists (f1, t1), (f2, t2), (f3, t3).
  rewrite fmap_app in Hnd. apply NoDup_app in Hnd as (_ & _ & Hnd).
  simpl in Hnd. apply NoDup_cons in Hnd as [Hn1 Hnd]. apply NoDup_cons in Hnd as [Hn2 _].
  assert (f1 <> f2) as H12 by (intros ->; apply Hn1; apply elem_of_cons; now left).
  assert (f1 <> f3) as H13
    by (intros ->; apply Hn1; apply elem_of_cons; right; apply elem_of_cons; now left).
  assert (f2 <> f3) as H23 by (intros ->; apply Hn2; apply elem_of_cons; now left).
  assert (entriesOf userCacheDir absPackagePath
            (updates userCacheDir absPackagePath (pre ++ [(f1, t1); (f2, t2); (f3, t3)]) s)
          = <[f3 := t3]> (<[f1 := t1]> {[f2 := t2]})) as Hfinal.
  { rewrite updates_app. cbn [updates fst snd]. rewrite !entriesOf_updateCache.
    apply last_three_builds; try assumption.
    now apply chronological_updates. }
  split; [|split].
  - rewrite drop_app_length'; [reflexivity|].
    rewrite length_app. simpl. lia.
  - exact Hfinal.
  - rewrite Hfinal. simpl.
    rewrite map_size_insert_None.
    + rewrite map_size_insert_None; [now rewrite map_size_singleton|].
      now apply lookup_singleton_ne.
    + rewrite lookup_insert_ne by congruence. apply lookup_singleton_ne. congruence.
Qed.

End RetentionBound.

Lemma updateCache_retention_witness :
  size (Cache.entriesOf "/home/u/.cache" "/src/tool"
          (Cache.updates "/home/u/.cache" "/src/tool"
             [("aa", 1%Z); ("bb", 2%Z); ("cc", 3%Z); ("dd", 4%Z)] ∅)) = 3.
Proof.
  assert (2 < length [("aa", 1%Z); ("bb", 2%Z); ("cc", 3%Z); ("dd", 4%Z)]) as Hlen
    by (simpl; lia).
  assert (NoDup [("aa", 1%Z); ("bb", 2%Z); ("cc", 3%Z); ("dd", 4%Z)].*1) as Hnd
    by (apply (bool_decide_unpack _); vm_compute; exact I).
  assert (chronological (Cache.entriesOf "/home/u/.cache" "/src/tool" ∅)
            [("aa", 1%Z); ("bb", 2%Z); ("cc", 3%Z); ("dd", 4%Z)]) as Hchron.
  { split.
    - apply (bool_decide_unpack _). vm_compute. exact I.
    - intros k t b Hk. unfold Cache.entriesOf in Hk.
      rewrite lookup_empty in Hk. simpl in Hk. rewrite lookup_empty in Hk. discriminate. }
  destruct (updateCache_retention "/home/u/.cache" "/src/tool" ∅ _ Hlen Hnd Hchron)
    as (b1 & b2 & b3 & _ & _ & Hsize).
  exact Hsize.
Defined.

(** C1 as stated fails: after three updates from an empty cache three
    entries remain, not two. *)
Lemma updateCache_three_entries_remain :
  size (Cache.entriesOf "/home/u/.cache" "/src/tool"
          (Cache.updates "/home/u/.cache" "/src/tool"
             [("aa", 1%Z); ("bb", 2%Z); ("cc", 3%Z)] ∅)) = 3
  /\ Cache.entriesOf "/home/u/.cache" "/src/tool"
       (Cache.updates "/home/u/.cache" "/src/tool"
          [("aa", 1%Z); ("bb", 2%Z); ("cc", 3%Z)] ∅)
     = <["aa" := 1%Z]> (<["bb" := 2%Z]> {["cc" := 3%Z]}).
Proof. vm_compute. split; reflexivity. Qed.

(** ** The parent of a path is shorter *)

Lemma weight_app (a b : list string) : weight (a ++ b) = weight a + weight b.
Proof. induction a as [|x a IH]; simpl; [reflexivity|]. rewrite IH. lia. Qed.

Lemma weight_rev (l : list string) : weight (rev l) = weight l.
Proof.
  induction l as [|x l IH]; simpl; [reflexivity|].
  rewrite weight_app, IH. simpl. lia.
Qed.

Lemma weight_filter (l : list string) : weight (List.filter nonEmpty l) <= weight l.
Proof.
  induction l as [|x l IH]; simpl; [lia|].
  destruct (nonEmpty x); simpl; lia.
Qed.

Lemma length_concat (l : list string) :
  String.length (String.concat "/" l) = weight l - 1.
Proof.
  induction l as [|x [|y l] IH]; simpl.
  - reflexivity.
  - lia.
  - rewrite !length_append. simpl String.length. simpl in IH. rewrite IH. lia.
Qed.

Lemma split_not_nil (p : string) : Path.split p <> [].
Proof.
  induction p as [|c p IH]; simpl; [discriminate|].
  destruct (Ascii.eqb c "/"); [discriminate|].
  destruct (Path.split p); discriminate.
Qed.

Lemma weight_split (p : string) : weight (Path.split p) = S (String.length p).
Proof.
  induction p as [|c p IH]; simpl; [reflexivity|].
  destruct (Ascii.eqb c "/"); simpl; [now rewrite IH|].
  pose proof (split_not_nil p) as Hne.
  destruct (Path.split p) as [|seg rest]; [congruence|].
  simpl in *. lia.
Qed.

Lemma split_rooted (p : string) :
  Path.isRooted p = true -> exists rest, Path.split p = EmptyString :: rest.
Proof.
  destruct p as [|c p]; simpl; [discriminate|].
  intros ->. eauto.
Qed.

Lemma cleanSegs_weight (rooted : bool) (segs stack : list string) :
  weight (Path.cleanSegs rooted stack segs)
  <= weight stack + weight (List.filter nonEmpty segs).
Proof.
  revert stack. induction segs as [|seg segs IH]; intros stack; simpl.
  - rewrite weight_rev. lia.
  - unfold nonEmpty at 1.
    destruct (String.eqb_spec seg EmptyString) as [->|Hne]; simpl.
    + apply IH.
    + destruct (String.eqb seg "."); simpl.
      * etransitivity; [apply IH|]. lia.
      * destruct (String.eqb seg "..").
        -- destruct stack as [|top stack].
           ++ destruct rooted.
              ** etransitivity; [apply IH|]. simpl. lia.
              ** etransitivity; [apply IH|]. simpl. lia.
           ++ destruct (String.eqb top "..").
              ** etransitivity; [apply IH|]. simpl. lia.
              ** etransitivity; [apply IH|]. simpl. lia.
        -- etransitivity; [apply IH|]. simpl. lia.
Qed.

Lemma removelast_weight (l : list string) :
  l <> [] -> weight (removelast l) < weight l.
Proof.
  intros Hne. destruct (exists_last Hne) as (pre & a & ->).
  rewrite removelast_last, weight_app. simpl. lia.
Qed.

Lemma cleanJoin_rooted (segs : list string) :
  Path.cleanJoin true segs = String "/" (String.concat "/" (Path.cleanSegs true [] segs)).
Proof. reflexivity. Qed.

Lemma cleanJoin_relative (segs : list string) :
  Path.cleanJoin false segs
  = if String.eqb (String.concat "/" (Path.cleanSegs false [] segs)) EmptyString
    then "." else String.concat "/" (Path.cleanSegs false [] segs).
Proof. reflexivity. Qed.

Lemma dir_shorter (p : string) :
  2 <= String.length p -> String.length (Path.dir p) < String.length p.
Proof.
  intros Hlen. unfold Path.dir.
  pose proof (weight_split p) as Hw.
  destruct (Path.split p) as [|s0 [|s1 segs]] eqn:Hsplit; try (simpl; lia).
  assert (weight (removelast (s0 :: s1 :: segs)) <= String.length p) as Hpre.
  { pose proof (removelast_weight (s0 :: s1 :: segs)) as H.
    assert (s0 :: s1 :: segs <> []) as Hne by discriminate. specialize (H Hne). lia. }
  clear Hw.
  destruct (Path.isRooted p) eqn:Hr.
  - destruct (split_rooted p Hr) as [rest Hrest].
    rewrite Hsplit in Hrest. injection Hrest as -> _.
    assert (removelast (EmptyString :: s1 :: segs)
            = EmptyString :: removelast (s1 :: segs)) as Hrl by reflexivity.
    rewrite Hrl in *. clear Hrl.
    set (pre := removelast (s1 :: segs)) in *.
    rewrite cleanJoin_rooted.
    pose proof (cleanSegs_weight true pre []) as Hcs.
    pose proof (weight_filter pre) as Hf.
    pose proof (length_concat (Path.cleanSegs true [] pre)) as Hc.
    change (Path.cleanSegs true [] (EmptyString :: pre)) with (Path.cleanSegs true [] pre).
    change (weight (EmptyString :: pre)) with (1 + weight pre) in Hpre.
    change (weight []) with 0 in Hcs.
    change (String.length (String "/" ?s)) with (S (String.length s)).
    rewrite Hc. lia.
  - set (pre := removelast (s0 :: s1 :: segs)) in *.
    rewrite cleanJoin_relative.
    pose proof (cleanSegs_weight false pre []) as Hcs.
    pose proof (weight_filter pre) as Hf.
    pose proof (length_concat (Path.cleanSegs false [] pre)) as Hc.
    change (weight []) with 0 in Hcs.
    destruct (String.eqb_spec (String.concat "/" (Path.cleanSegs false [] pre)) EmptyString)
      as [Heq|Hneq].
    + change (String.length ".") with 1. lia.
    + assert (String.length (String.concat "/" (Path.cleanSegs false [] pre)) <> 0) as Hnz.
      { intros H0. apply Hneq. now apply length_zero_empty. }
      lia.
Qed.

(** ** Embed resolution ends, with a list of files or an error *)

Section EmbedTotal.
Context (L : GoLib) (w : FS.world).

Lemma checkDirs_settled (fuel : nat) (pkgdir file what rel dir : string)
    (dirOK : gmap string bool) :
  String.length dir < fuel ->
  settled (checkDirs L w fuel pkgdir file what rel dir dirOK).
Proof.
  revert dir dirOK. induction fuel as [|fuel IH]; intros dir dirOK Hfuel; [lia|].
  simpl.
  destruct (Nat.ltb_spec (String.length pkgdir + 1) (String.length dir)) as [Hlong|Hshort];
    simpl; [|left; eauto].
  destruct (default false (dirOK !! dir)); simpl; [left; eauto|].
  destruct (FS.stat w (Path.join dir "go.mod")); [|right; eauto].
  destruct (negb (String.eqb dir file) && _); [right; eauto|].
  destruct (isBadEmbedName L (Path.base dir)).
  - destruct (String.eqb dir file); right; eauto.
  - apply IH. pose proof (dir_shorter dir). lia.
Qed.

Lemma embedMatch_settled (pkgdir : string) (all : bool) (pid : nat) (file : string)
    (st : gmap string bool * walkState) :
  settled (embedMatch L w pkgdir all pid file st).
Proof.
  unfold embedMatch.
  destruct (FS.stat w file) as [e|info]; [right; eauto|].
  pose proof (checkDirs_settled (S (String.length file)) pkgdir file
                (if FS.isDir info then "directory" else "file")
                (strTrimFilePathPrefix file pkgdir) file st.1 (Nat.lt_succ_diag_r _))
    as [[dirOK ->]|[e ->]]; [|right; eauto].
  destruct (FS.isRegular info); [left; eauto|].
  destruct (FS.isDir info); [|right; eauto].
  destruct (fsysWalk w file _ _) as [e|st']; [right; eauto|].
  destruct (count st' =? 0)%nat; [right; eauto | left; eauto].
Qed.

Lemma embedMatches_settled (pkgdir : string) (all : bool) (pid : nat)
    (files : list string) (st : gmap string bool * walkState) :
  settled (embedMatches L w pkgdir all pid files st).
Proof.
  revert st. induction files as [|file files IH]; intros st; simpl; [left; eauto|].
  destruct (embedMatch_settled pkgdir all pid file st) as [[st' ->]|[e ->]];
    [apply IH | right; eauto].
Qed.

Lemma embedPattern_settled (pkgdir : string) (st : embedState) (pattern : string) :
  settled (embedPattern L w pkgdir st pattern).
Proof.
  unfold embedPattern. destruct (Str.cutPrefix pattern "all:") as [glob all].
  destruct (negb (path_Match_wellformed L glob) || negb (validEmbedPattern L glob));
    [right; eauto|].
  destruct (filepath_Glob L w _) as [files|]; [|right; eauto].
  destruct (embedMatches_settled pkgdir all (S (pid st)) files
              (dirOK st, {| have := haveAll st; matched := []; count := 0 |}))
    as [[[dirOK' st'] ->]|[e ->]]; [|right; eauto].
  destruct (length (matched st') =? 0)%nat; [right; eauto | left; eauto].
Qed.

Lemma embedPatterns_settled (pkgdir : string) (patterns : list string) (st : embedState) :
  settled (embedPatterns L w pkgdir st patterns).
Proof.
  revert st. induction patterns as [|pattern patterns IH]; intros st; simpl;
    [left; eauto|].
  destruct (embedPattern_settled pkgdir st pattern) as [[st' ->]|[e ->]];
    [apply IH | right; eauto].
Qed.

(** A pattern that fails whatever came before it makes the whole list fail. *)
Lemma embedPatterns_failed (pkgdir : string) (patterns : list string) (pattern : string) :
  pattern ∈ patterns ->
  (forall st, failed (embedPattern L w pkgdir st pattern)) ->
  forall st, failed (embedPatterns L w pkgdir st patterns).
Proof.
  intros Hin Hfail. induction patterns as [|p patterns IH]; intros st.
  - now apply elem_of_nil in Hin.
  - simpl. apply elem_of_cons in Hin as [<-|Hin].
    + destruct (Hfail st) as [e ->]. now exists e.
    + destruct (embedPattern_settled pkgdir st p) as [[st' ->]|[e ->]];
        [now apply IH | now exists e].
Qed.

Lemma embedMatches_failed (pkgdir : string) (all : bool) (pid : nat)
    (files : list string) (file : string) :
  file ∈ files ->
  (forall st, failed (embedMatch L w pkgdir all pid file st)) ->
  forall st, failed (embedMatches L w pkgdir all pid files st).
Proof.
  intros Hin Hfail. induction files as [|f files IH]; intros st.
  - now apply elem_of_nil in Hin.
  - simpl. apply elem_of_cons in Hin as [<-|Hin].
    + destruct (Hfail st) as [e ->]. now exists e.
    + destruct (embedMatch_settled pkgdir all pid f st) as [[st' ->]|[e ->]];
        [now apply IH | now exists e].
Qed.

Lemma resolveEmbed_failed (pkgdir : string) (patterns : list string) :
  (forall st, failed (embedPatterns L w pkgdir st patterns)) ->
  failed (resolveEmbed L w pkgdir patterns).
Proof.
  intros Hfail. unfold resolveEmbed.
  destruct (Hfail {| pmap := ∅; haveAll := ∅; dirOK := ∅; pid := 0 |}) as [e ->].
  now exists e.
Qed.

End EmbedTotal.

(** ** What a walk counts does not depend on what was matched before *)

(** Induction on a file tree: a directory's entries may be assumed. *)
Lemma node_tree_ind (P : FS.node -> Prop)
    (HFile : forall content, P (FS.File content))
    (HDir : forall entries, Forall (fun e => P e.2) entries -> P (FS.Dir entries))
    (HIrregular : P FS.Irregular) (n : FS.node) : P n.
Proof.
  revert n.
  exact (fix tree (n : FS.node) : P n :=
           match n with
           | FS.File content => HFile content
           | FS.Dir entries =>
               HDir entries
                 ((fix all (es : list (string * FS.node))
                     : Forall (fun e => P e.2) es :=
                     match es with
                     | [] => List.Forall_nil _
                     | e :: es' => @List.Forall_cons _ _ e es' (tree e.2) (all es')
                     end) entries)
           | FS.Irregular => HIrregular
           end).
Qed.

(** Sorting two lists whose elements correspond, by orders that agree on
    corresponding elements, leaves them corresponding. *)
Section SortTogether.
Context {A B : Type} (RA : relation A) (RB : relation B)
        `{!RelDecision RA, !RelDecision RB} (Q : A -> B -> Prop)
        (Hagree : forall a1 a2 b1 b2, Q a1 b1 -> Q a2 b2 -> (RA a1 a2 <-> RB b1 b2)).

Lemma list_merge_Forall2 (l1 : list A) (l1' : list B) (l2 : list A) (l2' : list B) :
  Forall2 Q l1 l1' -> Forall2 Q l2 l2' ->
  Forall2 Q (list_merge RA l1 l2) (list_merge RB l1' l2').
Proof.
  intros H1. revert l2 l2'.
  induction H1 as [|a b l1 l1' Hab H1 IH1]; intros l2 l2' H2.
  - destruct H2; simpl; [constructor | now constructor].
  - induction H2 as [|a2 b2 l2 l2' Hab2 H2 IH2]; simpl.
    + now constructor.
    + destruct (decide (RA a a2)) as [Hr|Hr], (decide (RB b b2)) as [Hr'|Hr'].
      * constructor; [exact Hab|]. apply IH1. now constructor.
      * exfalso. apply Hr'. now apply (Hagree a a2 b b2).
      * exfalso. apply Hr. now apply (Hagree a a2 b b2).
      * constructor; [exact Hab2|]. exact IH2.
Qed.

Lemma merge_list_to_stack_Forall2 (st : list (option (list A)))
    (st' : list (option (list B))) (l : list A) (l' : list B) :
  stacksTogether Q st st' -> Forall2 Q l l' ->
  stacksTogether Q (merge_list_to_stack RA st l) (merge_list_to_stack RB st' l').
Proof.
  intros Hst. revert l l'.
  induction Hst as [|o o' st st' Ho Hst IH]; intros l l' Hl; simpl.
  - repeat constructor. exact Hl.
  - destruct Ho as [k k' Hk|]; simpl.
    + constructor; [constructor|]. apply IH. now apply list_merge_Forall2.
    + constructor; [now constructor | exact Hst].
Qed.

Lemma merge_stack_Forall2 (st : list (option (list A))) (st' : list (option (list B))) :
  stacksTogether Q st st' -> Forall2 Q (merge_stack RA st) (merge_stack RB st').
Proof.
  induction 1 as [|o o' st st' Ho Hst IH]; simpl; [constructor|].
  destruct Ho as [k k' Hk|]; [now apply list_merge_Forall2 | exact IH].
Qed.

Lemma merge_sort_Forall2 (l : list A) (l' : list B) :
  Forall2 Q l l' -> Forall2 Q (merge_sort RA l) (merge_sort RB l').
Proof.
  unfold merge_sort. intros Hl.
  assert (stacksTogether Q [] []) as Hst by constructor.
  revert Hst. generalize (@nil (option (list A))) (@nil (option (list B))).
  induction Hl as [|a b l l' Hab Hl IH]; intros st st' Hst; simpl.
  - now apply merge_stack_Forall2.
  - apply IH. apply merge_list_to_stack_Forall2; [exact Hst|].
    repeat constructor. exact Hab.
Qed.

End SortTogether.

Section WalkTogether.
Context {St1 St2 : Type} (R : St1 -> St2 -> Prop).

Context (walkFn1 : string -> string -> FS.node -> St1 -> walkSignal * St1)
        (walkFn2 : string -> string -> FS.node -> St2 -> walkSignal * St2)
        (Hfn : forall info,
            together R (fun path name => walkFn1 path name info)
                       (fun path name => walkFn2 path name info)).

Lemma fsyswalk_together (info : FS.node) :
  together R (fsyswalk walkFn1 info) (fsyswalk walkFn2 info).
Proof.
  induction info as [content|entries IH|] using node_tree_ind;
    intros path name st1 st2 Hst; simpl.
  - destruct (Hfn (FS.File content) path name st1 st2 Hst) as [Hsig Hrel].
    destruct (walkFn1 path name (FS.File content) st1) as [[] st1'],
             (walkFn2 path name (FS.File content) st2) as [[] st2'];
      simpl in *; try discriminate; auto.
  - destruct (Hfn (FS.Dir entries) path name st1 st2 Hst) as [Hsig Hrel].
    destruct (walkFn1 path name (FS.Dir entries) st1) as [[] st1'],
             (walkFn2 path name (FS.Dir entries) st2) as [[] st2'];
      simpl in *; try discriminate; auto.
    clear Hsig Hst st1 st2.
    set (fis1 := merge_sort byName
                   (map (fun e => (e.1, (FS.isDir e.2, fsyswalk walkFn1 e.2))) entries)).
    set (fis2 := merge_sort byName
                   (map (fun e => (e.1, (FS.isDir e.2, fsyswalk walkFn2 e.2))) entries)).
    assert (Forall2 (entriesTogether R) fis1 fis2) as Hfis.
    { apply (merge_sort_Forall2 byName byName (entriesTogether R)).
      - intros a1 a2 b1 b2 (H1 & _) (H2 & _). unfold byName. now rewrite H1, H2.
      - clear fis1 fis2. induction IH as [|e es He Hes IHes]; simpl; constructor.
        + split; [reflexivity|]. split; [reflexivity|]. exact He.
        + exact IHes. }
    clearbody fis1 fis2.
    assert ((WalkNil, st1').1 = (WalkNil, st2').1) as Hsig by reflexivity.
    revert Hsig. change (R (WalkNil, st1').2 (WalkNil, st2').2) in Hrel. revert Hrel.
    generalize (WalkNil, st1') (WalkNil, st2').
    induction Hfis as [|fi1 fi2 fis1 fis2 (Hname & Hdir & Hto) Hfis IHfis];
      intros acc1 acc2 Hrel Hsig; simpl; [now split|].
    apply IHfis.
    + destruct acc1 as [[] s1], acc2 as [[] s2]; simpl in *; try discriminate; auto.
      destruct (Hto (Path.join path fi1.1) fi1.1 s1 s2 Hrel) as [Hs Hr].
      rewrite <- Hname, <- Hdir.
      destruct (fi1.2.2 (Path.join path fi1.1) fi1.1 s1) as [[] s1'],
               (fi2.2.2 (Path.join path fi1.1) fi1.1 s2) as [[] s2'];
        simpl in *; try discriminate; auto.
      now destruct (fi1.2.1).
    + destruct acc1 as [[] s1], acc2 as [[] s2]; simpl in *; try discriminate; auto.
      destruct (Hto (Path.join path fi1.1) fi1.1 s1 s2 Hrel) as [Hs Hr].
      rewrite <- Hname, <- Hdir.
      destruct (fi1.2.2 (Path.join path fi1.1) fi1.1 s1) as [[] s1'],
               (fi2.2.2 (Path.join path fi1.1) fi1.1 s2) as [[] s2'];
        simpl in *; try discriminate; auto.
      now destruct (fi1.2.1).
  - destruct (Hfn FS.Irregular path name st1 st2 Hst) as [Hsig Hrel].
    destruct (walkFn1 path name FS.Irregular st1) as [[] st1'],
             (walkFn2 path name FS.Irregular st2) as [[] st2'];
      simpl in *; try discriminate; auto.
Qed.

End WalkTogether.

(** ** Embed patterns that are fatal *)

Section EmbedFatal.
Context (L : GoLib) (w : FS.world).

Lemma count_addMatch (pid : nat) (rel : string) (st : walkState) :
  count (addMatch pid rel st) = count st.
Proof. unfold addMatch. now destruct (_ =? _)%nat. Qed.

(** The count of a walk is the same whatever was matched before and
    whatever the number of the pattern. *)
Lemma embedWalkFn_count (pkgdir file : string) (all : bool) (pid pid' : nat)
    (info : FS.node) :
  together (fun st1 st2 => count st1 = count st2)
    (fun path name => embedWalkFn L w pkgdir file all pid path name info)
    (fun path name => embedWalkFn L w pkgdir file all pid' path name info).
Proof.
  intros path name st1 st2 Hst. unfold embedWalkFn.
  destruct (negb (String.eqb path file) && _); [now destruct (FS.isDir info)|].
  destruct (FS.isDir info).
  { now destruct (FS.stat w (Path.join path "go.mod")). }
  destruct (negb (FS.isRegular info)); [now split|].
  split; [reflexivity|]. simpl. rewrite !count_addMatch. simpl. now rewrite Hst.
Qed.

Lemma fsysWalk_count (pkgdir pattern file : string) (pid : nat) (st : walkState)
    (info : FS.node) :
  FS.stat w file = inr info ->
  count st = 0 ->
  exists st',
    fsysWalk w file (embedWalkFn L w pkgdir file (Str.cutPrefix pattern "all:").2 pid) st
    = inr st'
    /\ count st' = embeddableFiles L w pkgdir pattern file.
Proof.
  intros Hstat Hcount. unfold embeddableFiles, fsysWalk. rewrite Hstat.
  eexists. split; [reflexivity|].
  apply (fsyswalk_together (fun st1 st2 => count st1 = count st2)
           _ _ (embedWalkFn_count pkgdir file _ pid 0) info).
  exact Hcount.
Qed.

Lemma embedPattern_no_match (pkgdir pattern : string) (st : embedState) :
  matchesOf L w pkgdir pattern = Some [] ->
  failed (embedPattern L w pkgdir st pattern).
Proof.
  unfold matchesOf, embedPattern. destruct (Str.cutPrefix pattern "all:") as [glob all].
  simpl. intros ->.
  destruct (negb (path_Match_wellformed L glob) || negb (validEmbedPattern L glob));
    eexists; reflexivity.
Qed.

Lemma embedMatch_empty_directory (pkgdir pattern file : string) (pid : nat)
    (entries : list (string * FS.node)) (st : gmap string bool * walkState) :
  FS.stat w file = inr (FS.Dir entries) ->
  embeddableFiles L w pkgdir pattern file = 0 ->
  failed (embedMatch L w pkgdir (Str.cutPrefix pattern "all:").2 pid file st).
Proof.
  intros Hstat Hnone. unfold embedMatch. rewrite Hstat.
  cbn [FS.isDir FS.isRegular].
  destruct (checkDirs_settled L w (S (String.length file)) pkgdir file "directory"
              (strTrimFilePathPrefix file pkgdir) file st.1 (Nat.lt_succ_diag_r _))
    as [[dirOK' ->]|[e ->]]; [|now exists e].
  destruct (fsysWalk_count pkgdir pattern file pid
              {| have := have st.2; matched := matched st.2; count := 0 |}
              (FS.Dir entries) Hstat eq_refl) as (st' & -> & Hcount).
  rewrite Hcount, Hnone. eexists; reflexivity.
Qed.

Lemma embedPattern_empty_directory (pkgdir pattern file : string)
    (files : list string) (entries : list (string * FS.node)) (st : embedState) :
  matchesOf L w pkgdir pattern = Some files ->
  file ∈ files ->
  FS.stat w file = inr (FS.Dir entries) ->
  embeddableFiles L w pkgdir pattern file = 0 ->
  failed (embedPattern L w pkgdir st pattern).
Proof.
  intros Hglob Hin Hstat Hnone.
  pose proof (fun pid st => embedMatch_empty_directory pkgdir pattern file pid entries st
                              Hstat Hnone) as Hfile.
  unfold matchesOf in Hglob. unfold embedPattern.
  destruct (Str.cutPrefix pattern "all:") as [glob all]. simpl in *.
  destruct (negb (path_Match_wellformed L glob) || negb (validEmbedPattern L glob));
    [eexists; reflexivity|].
  rewrite Hglob.
  destruct (embedMatches_failed L w pkgdir all (S (pid st)) files file Hin
              (Hfile (S (pid st)))
              (dirOK st, {| have := haveAll st; matched := []; count := 0 |}))
    as [e ->].
  now exists e.
Qed.

End EmbedFatal.

(** C9: [resolveEmbed] ends with an error, and never with a list of files,
    when one of the patterns matches no file, or matches a directory in which
    the walk counts no file to embed; [parsePackage] returns that error,
    wrapped, for the package whose patterns these are, an error of a package
    it imports ends the scan of the importing package with the same error,
    and [checksum] then returns the error and no fingerprint.  At the
    package that embeds a directory holding a hidden file only, the
    invocation ends with that error. *)
Theorem resolveEmbed_fatal (L : GoLib) (w : FS.world) :
  (forall pkgdir patterns pattern,
      pattern ∈ patterns ->
      matchesOf L w pkgdir pattern = Some [] ->
      exists e, resolveEmbed L w pkgdir patterns = Err e)
  /\ (forall pkgdir patterns pattern files file entries,
         pattern ∈ patterns ->
         matchesOf L w pkgdir pattern = Some files ->
         file ∈ files ->
         FS.stat w file = inr (FS.Dir entries) ->
         embeddableFiles L w pkgdir pattern file = 0 ->
         exists e, resolveEmbed L w pkgdir patterns = Err e)
  /\ (forall fuel dir pc info pc1 des embedPatterns pc2 e,
         default false (parseContext.packages pc !! dir) = false ->
         findModule L w (S fuel) dir
           (parseContext.setPackages pc (<[dir := true]> (parseContext.packages pc)))
         = Ok (info, pc1) ->
         FS.readDir w dir = inr des ->
         scanEntries L w (S fuel) (parsePackage L w fuel) dir des [] pc1
         = Ok (embedPatterns, pc2) ->
         resolveEmbed L w dir embedPatterns = Err e ->
         parsePackage L w (S fuel) dir pc = Err (ErrResolveEmbed e))
  /\ (forall fuel parsePackage dir literal rest pc retDir pc' e,
         stdlibPackageRE literal = false ->
         resolveImport L w fuel dir (stripPackageQuotes literal) pc
         = Ok ((retDir, true), pc') ->
         parsePackage retDir pc' = Err e ->
         scanImports L w fuel parsePackage dir (literal :: rest) pc = Err e)
  /\ (forall fuel dir compilerFlags compilerEnv e,
         parsePackage L w fuel (Path.abs (FS.cwd w) dir) Scenario.emptyContext = Err e ->
         checksum L w fuel dir compilerFlags compilerEnv = Err (ErrChecksum dir e))
  /\ (forall fuel compilerFlags compilerEnv,
         checksum Scenario.EmptyEmbed.golib Scenario.EmptyEmbed.world (S fuel) "."
           compilerFlags compilerEnv
         = Err (ErrChecksum "." (ErrResolveEmbed (ErrNoEmbeddableFiles "assets")))).
Proof.
  split; [|split; [|split; [|split; [|split]]]].
  - intros pkgdir patterns pattern Hin Hnone.
    apply resolveEmbed_failed, (embedPatterns_failed L w pkgdir patterns pattern Hin).
    intros st. now apply embedPattern_no_match.
  - intros pkgdir patterns pattern files file entries Hin Hglob Hfile Hstat Hnone.
    apply resolveEmbed_failed, (embedPatterns_failed L w pkgdir patterns pattern Hin).
    intros st. now apply (embedPattern_empty_directory L w pkgdir pattern file files entries).
  - intros fuel dir pc info pc1 des embedPatterns pc2 e Hnew Hfind Hread Hscan Hres.
    simpl. rewrite Hnew. unfold bind.
    change (findModule L w (S fuel) dir ?c) with (findModule L w (S fuel) dir c).
    rewrite Hfind, Hread, Hscan. unfold checksumEmbedded. now rewrite Hres.
  - intros fuel pp dir literal rest pc retDir pc' e Hre Hres Hpp.
    unfold scanImports. simpl. rewrite Hre. unfold bind. rewrite Hres.
    cbn [negb fst snd]. now rewrite Hpp.
  - intros fuel dir flags env e Hpp. unfold checksum, packageSourceChecksums.
    fold Scenario.emptyContext. now rewrite Hpp.
  - intros fuel flags env. unfold checksum.
    replace (packageSourceChecksums Scenario.EmptyEmbed.golib Scenario.EmptyEmbed.world
               (S fuel) ".")
      with (Err (ErrChecksum "." (ErrResolveEmbed (ErrNoEmbeddableFiles "assets")))
            : outcome (gmap string string))
      by (vm_compute; reflexivity).
    reflexivity.
Qed.

Lemma resolveEmbed_fatal_witness :
  (exists e,
      resolveEmbed Scenario.EmptyEmbed.golib Scenario.EmptyEmbed.world "/m"
        ["go.mod"; "assets"] = Err e)
  /\ (exists e,
         resolveEmbed Scenario.EmptyEmbed.golib Scenario.EmptyEmbed.world "/m"
           ["go.mod"; "missing.txt"] = Err e).
Proof.
  destruct (resolveEmbed_fatal Scenario.EmptyEmbed.golib Scenario.EmptyEmbed.world)
    as (Hnone & Hempty & _).
  split.
  - apply (Hempty "/m" ["go.mod"; "assets"] "assets" ["/m/assets"] "/m/assets"
             [(".gitkeep", FS.File EmptyString)]).
    + apply elem_of_cons. right. apply elem_of_cons. now left.
    + vm_compute. reflexivity.
    + apply elem_of_cons. now left.
    + vm_compute. reflexivity.
    + vm_compute. reflexivity.
  - apply (Hnone "/m" ["go.mod"; "missing.txt"] "missing.txt").
    + apply elem_of_cons. right. apply elem_of_cons. now left.
    + vm_compute. reflexivity.
Defined.

Lemma checksum_deterministic_witness :
  "[" +:+ Json.entries [("/m/main.go", "h2"); ("/m/go.mod", "h1")]
      +:+ "," +:+ Json.strings ["-race"]
      +:+ "," +:+ Json.entries [("CC", "clang"); ("GOOS", "linux")] +:+ "]"
  = checksumInput (<["/m/main.go" := "h2"]> {["/m/go.mod" := "h1"]}) ["-race"]
      (<["GOOS" := "linux"]> {["CC" := "clang"]}).
Proof.
  apply (checksum_deterministic Scenario.SelfEmbed.golib Scenario.SelfEmbed.world).
  - replace (map_to_list (<["/m/main.go" := "h2"]> ({["/m/go.mod" := "h1"]}
                                                     : gmap string string)))
      with [("/m/go.mod", "h1"); ("/m/main.go", "h2")] by (vm_compute; reflexivity).
    apply Permutation_swap.
  - replace (map_to_list (<["GOOS" := "linux"]> ({["CC" := "clang"]}
                                                  : gmap string string)))
      with [("GOOS", "linux"); ("CC", "clang")] by (vm_compute; reflexivity).
    apply Permutation_swap.
Defined.

Lemma scanImports_skips_lowercase_first_segment_witness :
  scanImports Scenario.SelfReplace.golib Scenario.SelfReplace.world 1
    (fun _ => ret tt) "/a" [Scenario.quoted "fmt"; Scenario.quoted "example.org/x"]
    Scenario.emptyContext
  = scanImports Scenario.SelfReplace.golib Scenario.SelfReplace.world 1
      (fun _ => ret tt) "/a" [Scenario.quoted "example.org/x"] Scenario.emptyContext.
Proof.
  apply (scanImports_skips_lowercase_first_segment
           Scenario.SelfReplace.golib Scenario.SelfReplace.world 1 (fun _ => ret tt)
           "/a" (Scenario.quoted "fmt") [Scenario.quoted "example.org/x"]
           Scenario.emptyContext).
  vm_compute. reflexivity.
Defined.
